(** * The Cloud Tasks queue of jan-world

    A shallow embedding of [createQueue] (packages/jan-world/src/queue.ts)
    and of [JanWorldConfig] (packages/jan-world/src/config.ts).

    The queue sends every message to Google Cloud Tasks and, when a task is
    delivered back, re-queues it into the embedded world.  The Cloud Tasks
    client, the JSON transport, the zod schemas, the ULID factory and the
    embedded world are libraries: they appear here as interfaces, and the
    functions of queue.ts are written against them in a small monad that
    threads the state of these collaborators, propagates thrown errors and
    records every call that leaves the process. *)

From Stdlib Require Import String Ascii List ZArith Bool Lia.
Import ListNotations.
Local Open Scope string_scope.

(** ** JavaScript values used by queue.ts *)

Module Js.

(** A thrown [Error]: its message and, for the errors of the gRPC
    client, the numeric status in [error.code]. *)
Record Error := mkError { message : string; code : option Z }.

(** [new Error(msg)] *)
Definition newError (msg : string) : Error :=
  {| message := msg; code := None |}.

(** [error.code === c] *)
Definition code_is (e : Error) (c : Z) : bool :=
  match code e with
  | Some c' => Z.eqb c' c
  | None => false
  end.

(** The completion of an evaluation: a value, or a thrown error. *)
Inductive completion (A : Type) : Type :=
| Ok (a : A)
| Throw (e : Error).
Arguments Ok {A} a.
Arguments Throw {A} e.

(** A [number], as far as [||] looks at it: [NaN] and [0] are falsy.
    Rates are integral; fractions and infinities are left out. *)
Inductive number := NaN | Num (z : Z).

Definition truthy_number (n : number) : bool :=
  match n with
  | NaN => false
  | Num z => negb (Z.eqb z 0)
  end.

(** The empty string is the only falsy string. *)
Definition truthy_string (s : string) : bool := negb (String.eqb s "").

(** [x || d] for an optional string property ([None] is [undefined]). *)
Definition or_string (x : option string) (d : string) : string :=
  match x with
  | Some s => if truthy_string s then s else d
  | None => d
  end.

(** [x || d] for an optional number property. *)
Definition or_number (x : option number) (d : number) : number :=
  match x with
  | Some n => if truthy_number n then n else d
  | None => d
  end.

(** [`${x}`] for a property that holds a string or is absent. *)
Definition template (x : option string) : string :=
  match x with
  | Some s => s
  | None => "undefined"
  end.

(** [s.startsWith(p)] *)
Definition startsWith (s p : string) : bool := String.prefix p s.

(** [s.slice(n)] for [n >= 0]: [s] without its first [n] code units. *)
Fixpoint slice (s : string) (n : nat) {struct n} : string :=
  match n, s with
  | O, _ => s
  | S n', String _ s' => slice s' n'
  | S _, EmptyString => EmptyString
  end.

End Js.
Export Js.

(** ** config.ts *)

Record JanWorldConfig := {
  connectionString : string;
  gcpProjectId : string;
  gcpLocation : string;
  queuePrefix : option string;
  queueConcurrency : option number
}.

(** [process.env], as far as the queue reads it. *)
Record ProcessEnv := {
  TASK_HANDLER_URL : option string
}.

(** ** Queue names (@workflow/world) *)

(** [QueuePrefix] is the union of the two string literals. *)
Inductive QueuePrefix := wkf_workflow | wkf_step.

Definition prefix_string (p : QueuePrefix) : string :=
  match p with
  | wkf_workflow => "__wkf_workflow_"
  | wkf_step => "__wkf_step_"
  end.

(** [parseQueueName]: the first of ['__wkf_step_', '__wkf_workflow_'] that
    the name starts with, and the rest of the name. *)
Fixpoint parseQueueName_loop (prefixes : list QueuePrefix) (name : string)
  : completion (QueuePrefix * string) :=
  match prefixes with
  | prefix :: rest =>
      if startsWith name (prefix_string prefix)
      then Ok (prefix, slice name (String.length (prefix_string prefix)))
      else parseQueueName_loop rest name
  | [] => Throw (newError ("Invalid queue name: " ++ name))
  end.

Definition parseQueueName (name : string) : completion (QueuePrefix * string) :=
  parseQueueName_loop [wkf_step; wkf_workflow] name.

(** ** Requests sent to Cloud Tasks

    Field names follow the request objects of queue.ts; a short prefix
    keeps the projections of different records apart. *)

Record GetQueueRequest := { gq_name : string }.

Record RateLimits := { maxDispatchesPerSecond : number }.

Record QueueResource := { q_name : string; q_rateLimits : RateLimits }.

Record CreateQueueRequest := { cq_parent : string; cq_queue : QueueResource }.

(** The object given to [JSON.stringify] as the body of the HTTP request.
    [JSON.stringify] leaves out a property that is [undefined]. *)
Record TaskBody (Body : Type) := {
  tb_id : string;
  tb_data : Body;
  tb_messageId : string;
  tb_idempotencyKey : option string;
  tb_prefix : string
}.
Arguments tb_id {Body}.
Arguments tb_data {Body}.
Arguments tb_messageId {Body}.
Arguments tb_idempotencyKey {Body}.
Arguments tb_prefix {Body}.

Record HttpRequest (Body : Type) := {
  httpMethod : string;
  url : string;
  headers : list (string * string);
  body : TaskBody Body
}.
Arguments httpMethod {Body}.
Arguments url {Body}.
Arguments headers {Body}.
Arguments body {Body}.

(** [name] is absent from an anonymous task. *)
Record Task (Body : Type) := {
  httpRequest : HttpRequest Body;
  t_name : option string
}.
Arguments httpRequest {Body}.
Arguments t_name {Body}.

(** [{ ...task, name }] *)
Definition with_name {Body : Type} (task : Task Body) (name : string) : Task Body :=
  {| httpRequest := httpRequest task; t_name := Some name |}.

Record CreateTaskRequest (Body : Type) := {
  ct_parent : string;
  ct_task : Task Body
}.
Arguments ct_parent {Body}.
Arguments ct_task {Body}.

(** [opts] of [Queue['queue']]. *)
Record QueueOptions := { opt_idempotencyKey : option string }.

(** [opts?.idempotencyKey] *)
Definition idempotencyKey_of (opts : option QueueOptions) : option string :=
  match opts with
  | Some o => opt_idempotencyKey o
  | None => None
  end.

(** What the [data] property of a delivery holds.  It is declared a
    string; the transport reads the stream made of it as bytes, so a
    delivery that is to be deserialized carries a [Buffer]. *)
Inductive Data :=
| Text (text : string)
| Buffer (bytes : string).

(** The payload handed to [processTask]: the parsed JSON body of a
    delivery.  The declared type makes four properties required strings;
    nothing at run time does, so a property may be absent ([None]). *)
Record TaskPayload := {
  p_id : option string;
  p_data : option Data;
  p_messageId : option string;
  p_idempotencyKey : option string;
  p_prefix : option string
}.

(** ** Interfaces of the libraries *)

(** [CloudTasksClient] of @google-cloud/tasks.  The three path helpers
    render name templates; the three calls reach the service, whose state
    is [S].  A template throws when a segment does not render.
    [queuePath] and [locationPath] are only given the project and the
    location of the configuration and the names of the two queues, and
    are taken to render; [taskPath] is given the caller's key, and may
    throw. *)
Module client.
Class API (S Body : Type) := {
  queuePath : string -> string -> string -> string;
  locationPath : string -> string -> string;
  taskPath : string -> string -> string -> string -> completion string;
  getQueue : GetQueueRequest -> S -> completion unit * S;
  createQueue : CreateQueueRequest -> S -> completion unit * S;
  createTask : CreateTaskRequest Body -> S -> completion unit * S
}.
End client.

(** [JsonTransport] of @vercel/queue.  [deserialize] stands for the
    stream built around [payload.data] followed by the transport's
    [deserialize]. *)
Module transport.
Class API (Message Raw Body : Type) := {
  serialize : Message -> completion Body;
  deserialize : option Data -> completion Raw
}.
End transport.

(** [MessageId] of @workflow/world. *)
Module MessageId.
Class Schema := { parse : string -> completion string }.
End MessageId.

(** [QueuePayloadSchema] of @workflow/world. *)
Module QueuePayloadSchema.
Class Schema (Raw Message : Type) := { parse : Raw -> completion Message }.
End QueuePayloadSchema.

(** [monotonicFactory()] of ulid: one call of the returned function. *)
Module ulid.
Class MonotonicFactory (G : Type) := {
  next : G -> completion string * G
}.
End ulid.

(** The world made by [createEmbeddedWorld]; its state is [E]. *)
Module embeddedWorld.
Class API (E Message : Type) := {
  queue : string -> Message -> QueueOptions -> E -> completion string * E
}.
End embeddedWorld.

(** ** The monad of queue.ts

    An [async] function runs from a state of the three stateful
    collaborators to a completion, a new state and the list of calls it
    made to the Cloud Tasks service and to the embedded world, in order. *)

Record World (S E G : Type) := {
  cloud : S;
  engine : E;
  factory : G
}.
Arguments cloud {S E G}.
Arguments engine {S E G}.
Arguments factory {S E G}.

Inductive Call (Message Body : Type) : Type :=
| GetQueue (req : GetQueueRequest)
| CreateQueue (req : CreateQueueRequest)
| CreateTask (req : CreateTaskRequest Body)
| EngineQueue (queueName : string) (message : Message) (opts : QueueOptions).
Arguments GetQueue {Message Body} req.
Arguments CreateQueue {Message Body} req.
Arguments CreateTask {Message Body} req.
Arguments EngineQueue {Message Body} queueName message opts.

(** The number of [createQueue] calls among the calls made. *)
Definition createQueue_calls {Message Body : Type} (l : list (Call Message Body)) : nat :=
  List.length
    (filter (fun c => match c with CreateQueue _ => true | _ => false end) l).

Record Run (W C A : Type) := {
  value : completion A;
  after : W;
  calls : list C
}.
Arguments value {W C A}.
Arguments after {W C A}.
Arguments calls {W C A}.

Definition M (W C A : Type) : Type := W -> Run W C A.

Definition ret {W C A : Type} (a : A) : M W C A :=
  fun w => {| value := Ok a; after := w; calls := [] |}.

Definition throw {W C A : Type} (e : Error) : M W C A :=
  fun w => {| value := Throw e; after := w; calls := [] |}.

(** A synchronous expression that may throw. *)
Definition lift {W C A : Type} (c : completion A) : M W C A :=
  fun w => {| value := c; after := w; calls := [] |}.

Definition bind {W C A B : Type} (m : M W C A) (k : A -> M W C B) : M W C B :=
  fun w =>
    let r := m w in
    match value r with
    | Ok a =>
        let r' := k a (after r) in
        {| value := value r'; after := after r'; calls := calls r ++ calls r' |}
    | Throw e => {| value := Throw e; after := after r; calls := calls r |}
    end.

(** [try { m } catch (error) { handler error }] *)
Definition try_catch {W C A : Type} (m : M W C A) (handler : Error -> M W C A)
  : M W C A :=
  fun w =>
    let r := m w in
    match value r with
    | Ok a => r
    | Throw e =>
        let r' := handler e (after r) in
        {| value := value r'; after := after r'; calls := calls r ++ calls r' |}
    end.

Declare Scope bridge_scope.
Delimit Scope bridge_scope with bridge.
Notation "x <- m ;; k" := (bind m (fun x => k))
  (at level 61, m at next level, right associativity) : bridge_scope.
Notation "' p <- m ;; k" := (bind m (fun x => match x with p => k end))
  (at level 61, p pattern, m at next level, right associativity) : bridge_scope.
Notation "m ;; k" := (bind m (fun _ => k))
  (at level 61, right associativity) : bridge_scope.

(** ** createQueue(config) *)

Section createQueue.

Context {Message Raw Body S E G : Type}.
Context {cloudTasks : client.API S Body}.
Context {jsonTransport : transport.API Message Raw Body}.
Context {messageIdSchema : MessageId.Schema}.
Context {queuePayloadSchema : QueuePayloadSchema.Schema Raw Message}.
Context {monotonicFactory : ulid.MonotonicFactory G}.
Context {embedded : embeddedWorld.API E Message}.

Variable config : JanWorldConfig.
Variable env : ProcessEnv.

Abbreviation world := (World S E G).
Abbreviation call := (Call Message Body).
Abbreviation async := (M world call).

Local Open Scope bridge_scope.

(** A call of the Cloud Tasks client: it is recorded and moves the state
    of the service. *)
Definition await_client {A : Type} (c : call) (f : S -> completion A * S) : async A :=
  fun w =>
    let '(r, s) := f (cloud w) in
    {| value := r;
       after := {| cloud := s; engine := engine w; factory := factory w |};
       calls := [c] |}.

(** A call of the embedded world. *)
Definition await_embedded {A : Type} (c : call) (f : E -> completion A * E) : async A :=
  fun w =>
    let '(r, e) := f (engine w) in
    {| value := r;
       after := {| cloud := cloud w; engine := e; factory := factory w |};
       calls := [c] |}.

(** [generateMessageId()]: local to the process, not recorded as a call. *)
Definition generateMessageId : async string :=
  fun w =>
    let '(r, g) := ulid.next (factory w) in
    {| value := r;
       after := {| cloud := cloud w; engine := engine w; factory := g |};
       calls := [] |}.

Definition prefix : string := or_string (queuePrefix config) "workflow-".

Definition Queues (p : QueuePrefix) : string :=
  match p with
  | wkf_workflow => prefix ++ "flows"
  | wkf_step => prefix ++ "steps"
  end.

Definition getDeploymentId : async string := ret "jan-world".

Definition getQueuePath (queueName : string) : string :=
  client.queuePath (gcpProjectId config) (gcpLocation config) queueName.

Definition ensureQueue (queueName : string) : async unit :=
  try_catch
    (let queuePath := getQueuePath queueName in
     let req := {| gq_name := queuePath |} in
     await_client (GetQueue req) (client.getQueue req))
    (fun error =>
       if code_is error 5 then
         let parent := client.locationPath (gcpProjectId config) (gcpLocation config) in
         let req :=
           {| cq_parent := parent;
              cq_queue :=
                {| q_name := getQueuePath queueName;
                   q_rateLimits :=
                     {| maxDispatchesPerSecond :=
                          or_number (queueConcurrency config) (Num 10) |} |} |} in
         await_client (CreateQueue req) (client.createQueue req)
       else throw error).

(** [queue]; the result is the [messageId] of the returned object. *)
Definition queue (queue : string) (message : Message) (opts : option QueueOptions)
  : async string :=
  '(prefix, queueId) <- lift (parseQueueName queue) ;;
  let jobName := Queues prefix in
  ensureQueue jobName ;;
  body <- lift (transport.serialize message) ;;
  id <- generateMessageId ;;
  messageId <- lift (MessageId.parse ("msg_" ++ id)) ;;
  let queuePath := getQueuePath jobName in
  let task :=
    {| httpRequest :=
         {| httpMethod := "POST";
            url := or_string (TASK_HANDLER_URL env) "http://localhost:3000/api/tasks";
            headers := [("Content-Type", "application/json")];
            body :=
              {| tb_id := queueId;
                 tb_data := body;
                 tb_messageId := messageId;
                 tb_idempotencyKey := idempotencyKey_of opts;
                 tb_prefix := prefix_string prefix |} |};
       t_name := None |} in
  match idempotencyKey_of opts with
  | Some idempotencyKey =>
      if truthy_string idempotencyKey then
        taskName <- lift (client.taskPath (gcpProjectId config) (gcpLocation config)
                            jobName idempotencyKey) ;;
        let req := {| ct_parent := queuePath; ct_task := with_name task taskName |} in
        await_client (CreateTask req) (client.createTask req)
      else
        let req := {| ct_parent := queuePath; ct_task := task |} in
        await_client (CreateTask req) (client.createTask req)
  | None =>
      let req := {| ct_parent := queuePath; ct_task := task |} in
      await_client (CreateTask req) (client.createTask req)
  end ;;
  ret messageId.

Definition processTask (payload : TaskPayload) : async unit :=
  body <- lift (transport.deserialize (p_data payload)) ;;
  message <- lift (QueuePayloadSchema.parse body) ;;
  let queueName := template (p_prefix payload) ++ template (p_id payload) in
  let opts := {| opt_idempotencyKey := p_idempotencyKey payload |} in
  await_embedded (EngineQueue queueName message opts)
    (embeddedWorld.queue queueName message opts) ;;
  ret tt.

(** [start()]: [Object.values(Queues)] lists the values in the order of
    the keys of the literal. *)
Definition start : async unit :=
  ensureQueue (Queues wkf_workflow) ;;
  ensureQueue (Queues wkf_step).

End createQueue.

(** ** An in-memory service

    Concrete collaborators on which the functions above run: a Cloud
    Tasks service that keeps the names of its queues and tasks, a
    transport that writes and reads JSON objects as bytes, the schema of
    a workflow invocation, a factory that hands out prepared identifiers,
    and an embedded world that records what it is given. *)

Module InMemory.

Record Cloud := {
  queues : list string;
  tasks : list (option string);
  unavailable : bool
}.

Definition has (names : list string) (name : string) : bool :=
  existsb (String.eqb name) names.

Definition NOT_FOUND : Error := {| message := "NOT_FOUND"; code := Some 5%Z |}.
Definition ALREADY_EXISTS : Error := {| message := "ALREADY_EXISTS"; code := Some 6%Z |}.
Definition UNAVAILABLE : Error := {| message := "UNAVAILABLE"; code := Some 14%Z |}.

Definition getQueue (req : GetQueueRequest) (s : Cloud) : completion unit * Cloud :=
  if unavailable s then (Throw UNAVAILABLE, s)
  else if has (queues s) (gq_name req) then (Ok tt, s)
  else (Throw NOT_FOUND, s).

Definition createQueue (req : CreateQueueRequest) (s : Cloud) : completion unit * Cloud :=
  if unavailable s then (Throw UNAVAILABLE, s)
  else if has (queues s) (q_name (cq_queue req)) then (Throw ALREADY_EXISTS, s)
  else (Ok tt,
        {| queues := q_name (cq_queue req) :: queues s;
           tasks := tasks s;
           unavailable := false |}).

Definition named (names : list (option string)) (name : option string) : bool :=
  match name with
  | Some n => existsb (fun x => match x with Some m => String.eqb n m | None => false end) names
  | None => false
  end.

Definition createTask (req : CreateTaskRequest string) (s : Cloud) : completion unit * Cloud :=
  if unavailable s then (Throw UNAVAILABLE, s)
  else if negb (has (queues s) (ct_parent req)) then (Throw NOT_FOUND, s)
  else if named (tasks s) (t_name (ct_task req)) then (Throw ALREADY_EXISTS, s)
  else (Ok tt,
        {| queues := queues s;
           tasks := t_name (ct_task req) :: tasks s;
           unavailable := false |}).

Definition locationPath (project location : string) : string :=
  "projects/" ++ project ++ "/locations/" ++ location.

Definition queuePath (project location queue : string) : string :=
  locationPath project location ++ "/queues/" ++ queue.

(** A segment renders when it has a character other than a slash or a
    brace. *)
Fixpoint renders (segment : string) : bool :=
  match segment with
  | EmptyString => false
  | String c rest =>
      negb (Ascii.eqb c "/" || Ascii.eqb c "{" || Ascii.eqb c "}")%char || renders rest
  end.

Definition taskPath (project location queue task : string) : completion string :=
  if renders project && renders location && renders queue && renders task
  then Ok (queuePath project location queue ++ "/tasks/" ++ task)
  else Throw (newError ("render fails for not matching " ++ task)).

(** JSON, as far as the transport below reads it: an object whose members
    are strings without escapes, written without white space.  Any other
    text is a syntax error. *)
Definition Json : Type := list (string * string).

Definition quote : ascii := "034"%char.

Definition quoted (text : string) : string :=
  String quote (text ++ String quote EmptyString).

Definition member (m : string * string) : string :=
  quoted (fst m) ++ ":" ++ quoted (snd m).

Fixpoint members (obj : Json) : string :=
  match obj with
  | [] => ""
  | [m] => member m
  | m :: rest => member m ++ "," ++ members rest
  end.

(** [JSON.stringify] *)
Definition stringify (obj : Json) : string := "{" ++ members obj ++ "}".

(** The characters up to the closing quote, and what follows it. *)
Fixpoint string_literal (text : string) : option (string * string) :=
  match text with
  | EmptyString => None
  | String c rest =>
      if Ascii.eqb c quote then Some (EmptyString, rest)
      else
        match string_literal rest with
        | Some (s, rest') => Some (String c s, rest')
        | None => None
        end
  end.

Fixpoint parse_members (fuel : nat) (text : string) : option Json :=
  match fuel, text with
  | S fuel', String q rest =>
      if Ascii.eqb q quote then
        match string_literal rest with
        | Some (key, String colon (String q' rest1)) =>
            if Ascii.eqb colon ":" && Ascii.eqb q' quote then
              match string_literal rest1 with
              | Some (val, String sep rest2) =>
                  if Ascii.eqb sep "," then
                    match parse_members fuel' rest2 with
                    | Some ms => Some ((key, val) :: ms)
                    | None => None
                    end
                  else if Ascii.eqb sep "}" then
                    match rest2 with
                    | EmptyString => Some [(key, val)]
                    | _ => None
                    end
                  else None
              | _ => None
              end
            else None
        | _ => None
        end
      else None
  | _, _ => None
  end.

(** [JSON.parse] *)
Definition parse (text : string) : option Json :=
  match text with
  | String open rest =>
      if Ascii.eqb open "{" then
        match rest with
        | String close EmptyString => if Ascii.eqb close "}" then Some [] else None
        | _ => parse_members (String.length rest) rest
        end
      else None
  | EmptyString => None
  end.

Fixpoint property (key : string) (obj : Json) : option string :=
  match obj with
  | [] => None
  | (k, v) :: rest => if String.eqb k key then Some v else property key rest
  end.

#[export] Instance cloudTasks : client.API Cloud string := {|
  client.queuePath := queuePath;
  client.locationPath := locationPath;
  client.taskPath := taskPath;
  client.getQueue := getQueue;
  client.createQueue := createQueue;
  client.createTask := createTask
|}.

(** The transport writes a message as the bytes of its JSON text, and
    reads one back from bytes only: a chunk that is a string, or no chunk,
    makes it throw. *)
#[export] Instance jsonTransport : transport.API Json Json string := {|
  transport.serialize := fun message => Ok (stringify message);
  transport.deserialize := fun data =>
    match data with
    | Some (Buffer bytes) =>
        match parse bytes with
        | Some obj => Ok obj
        | None => Throw (newError "Unexpected token in JSON")
        end
    | Some (Text _) => Throw (newError "chunk is not a Uint8Array")
    | None => Throw (newError "chunk is not a Uint8Array")
    end
|}.

#[export] Instance messageIdSchema : MessageId.Schema := {|
  MessageId.parse := fun text => Ok text
|}.

(** The schema, for the invocation of a workflow: an object with a
    [runId]; other members are dropped. *)
#[export] Instance queuePayloadSchema : QueuePayloadSchema.Schema Json Json := {|
  QueuePayloadSchema.parse := fun raw =>
    match property "runId" raw with
    | Some runId => Ok [("runId", runId)]
    | None => Throw (newError "Invalid input")
    end
|}.

#[export] Instance monotonicFactory : ulid.MonotonicFactory (list string) := {|
  ulid.next := fun prepared =>
    match prepared with
    | id :: rest => (Ok id, rest)
    | [] => (Throw (newError "cannot generate unique value"), [])
    end
|}.

Definition Enqueued : Type := string * Json * QueueOptions.

#[export] Instance embedded : embeddedWorld.API (list Enqueued) Json := {|
  embeddedWorld.queue := fun queueName message opts enqueued =>
    (Ok "msg_embedded", (enqueued ++ [(queueName, message, opts)])%list)
|}.

Definition config : JanWorldConfig := {|
  connectionString := "postgres://localhost:5432/workflow";
  gcpProjectId := "demo";
  gcpLocation := "us-central1";
  queuePrefix := None;
  queueConcurrency := None
|}.

(** The same, with [queueConcurrency: 0]. *)
Definition unthrottled : JanWorldConfig := {|
  connectionString := "postgres://localhost:5432/workflow";
  gcpProjectId := "demo";
  gcpLocation := "us-central1";
  queuePrefix := None;
  queueConcurrency := Some (Num 0)
|}.

Definition env : ProcessEnv := {| TASK_HANDLER_URL := None |}.

(** Two messages: the invocations of two runs. *)
Definition invocation : Json := [("runId", "wrun_1")].

Definition other_invocation : Json := [("runId", "wrun_2")].

(** Deliveries: a well-formed one, one without [prefix], and one whose
    [prefix] is not a [QueuePrefix].  Their [data] is a Buffer of the
    JSON text of [invocation]. *)
Definition delivery : TaskPayload := {|
  p_id := Some "abc123";
  p_data := Some (Buffer (stringify invocation));
  p_messageId := Some "msg_01AB";
  p_idempotencyKey := None;
  p_prefix := Some "__wkf_step_"
|}.

Definition delivery_without_prefix : TaskPayload := {|
  p_id := Some "abc123";
  p_data := Some (Buffer (stringify invocation));
  p_messageId := Some "msg_01AB";
  p_idempotencyKey := None;
  p_prefix := None
|}.

Definition delivery_with_unknown_prefix : TaskPayload := {|
  p_id := Some "abc123";
  p_data := Some (Buffer (stringify invocation));
  p_messageId := Some "msg_01AB";
  p_idempotencyKey := None;
  p_prefix := Some "__wkf_hook_"
|}.

Definition empty : World Cloud (list Enqueued) (list string) := {|
  cloud := {| queues := []; tasks := []; unavailable := false |};
  engine := [];
  factory := ["01ARZ3NDEKTSV4RRFFQ69G5FAV"; "01ARZ3NDEKTSV4RRFFQ69G5FAW"]
|}.

Definition down : World Cloud (list Enqueued) (list string) := {|
  cloud := {| queues := []; tasks := []; unavailable := true |};
  engine := [];
  factory := []
|}.

(** The service after a first [ensureQueue] of the queue of steps. *)
Definition provisioned : World Cloud (list Enqueued) (list string) :=
  after (ensureQueue (Message := Json) config "workflow-steps" empty).

Definition keyed : option QueueOptions :=
  Some {| opt_idempotencyKey := Some "order-7" |}.

(** The service after a first keyed [queue] of a step. *)
Definition dispatched : World Cloud (list Enqueued) (list string) :=
  after (queue config env "__wkf_step_abc123" invocation keyed empty).

End InMemory.

(** ** A service with a rival

    A Cloud Tasks service on which another process creates the queue right
    after a lookup has missed it: the lookup answers not found, and the
    creation that follows finds the queue already there.  The state says
    whether the rival's queue has landed. *)

Module Contended.

Definition getQueue (req : GetQueueRequest) (landed : bool) : completion unit * bool :=
  if landed then (Ok tt, true) else (Throw InMemory.NOT_FOUND, true).

Definition createQueue (req : CreateQueueRequest) (landed : bool) : completion unit * bool :=
  if landed then (Throw InMemory.ALREADY_EXISTS, true) else (Ok tt, true).

Definition createTask (req : CreateTaskRequest string) (landed : bool) : completion unit * bool :=
  if landed then (Ok tt, true) else (Throw InMemory.NOT_FOUND, false).

#[export] Instance cloudTasks : client.API bool string := {|
  client.queuePath := InMemory.queuePath;
  client.locationPath := InMemory.locationPath;
  client.taskPath := InMemory.taskPath;
  client.getQueue := getQueue;
  client.createQueue := createQueue;
  client.createTask := createTask
|}.

Definition fresh : World bool (list InMemory.Enqueued) (list string) := {|
  cloud := false;
  engine := [];
  factory := ["01ARZ3NDEKTSV4RRFFQ69G5FAV"]
|}.

End Contended.

(** * Properties *)

(** ** Strings *)

Lemma startsWith_slice (p s : string) :
  startsWith s p = true -> p ++ slice s (String.length p) = s.
Proof.
  unfold startsWith. revert s.
  induction p as [|a p IH]; intros s H; simpl.
  - reflexivity.
  - destruct s as [|b s]; simpl in H; [discriminate|].
    destruct (ascii_dec a b) as [->|]; [|discriminate].
    f_equal. apply IH, H.
Qed.

Lemma append_inj_l (p s t : string) : p ++ s = p ++ t -> s = t.
Proof.
  induction p as [|a p IH]; simpl; intros H.
  - exact H.
  - injection H as H. apply IH, H.
Qed.

(** ** parseQueueName *)

Lemma parseQueueName_Ok (name : string) (p : QueuePrefix) (queueId : string) :
  parseQueueName name = Ok (p, queueId) ->
  startsWith name (prefix_string p) = true /\
  queueId = slice name (String.length (prefix_string p)).
Proof.
  unfold parseQueueName, parseQueueName_loop.
  destruct (startsWith name (prefix_string wkf_step)) eqn:Hs.
  - intros H. injection H as <- <-. split; [exact Hs|reflexivity].
  - destruct (startsWith name (prefix_string wkf_workflow)) eqn:Hw.
    + intros H. injection H as <- <-. split; [exact Hw|reflexivity].
    + discriminate.
Qed.

Lemma parseQueueName_recognized (name : string) (p : QueuePrefix) :
  startsWith name (prefix_string p) = true ->
  exists p' queueId, parseQueueName name = Ok (p', queueId).
Proof.
  intros H. unfold parseQueueName, parseQueueName_loop.
  destruct (startsWith name (prefix_string wkf_step)) eqn:Hs; [eauto|].
  destruct (startsWith name (prefix_string wkf_workflow)) eqn:Hw; [eauto|].
  destruct p; congruence.
Qed.

Lemma parseQueueName_unrecognized (name : string) :
  (forall p, startsWith name (prefix_string p) = false) ->
  parseQueueName name = Throw (newError ("Invalid queue name: " ++ name)).
Proof.
  intros H. unfold parseQueueName, parseQueueName_loop.
  rewrite (H wkf_step), (H wkf_workflow). reflexivity.
Qed.

(** Neither prefix starts with the other, so the order in which
    [parseQueueName] tries them does not show. *)
Lemma parseQueueName_prefix (p : QueuePrefix) (queueId : string) :
  parseQueueName (prefix_string p ++ queueId) = Ok (p, queueId).
Proof. destruct p, queueId; reflexivity. Qed.

(** C1. A queue name that starts with ['__wkf_workflow_'] or with
    ['__wkf_step_'] is parsed into a prefix and a queue id, and the prefix
    followed by the queue id is the name again. *)
Theorem parseQueueName_round_trip (name : string) :
  (exists p, startsWith name (prefix_string p) = true) ->
  exists p queueId,
    parseQueueName name = Ok (p, queueId) /\
    prefix_string p ++ queueId = name.
Proof.
  intros [p0 H0].
  destruct (parseQueueName_recognized name p0 H0) as (p & queueId & Hparse).
  exists p, queueId. split; [exact Hparse|].
  destruct (parseQueueName_Ok _ _ _ Hparse) as [Hstarts ->].
  apply startsWith_slice, Hstarts.
Qed.

Lemma parseQueueName_round_trip_witness :
  exists p queueId,
    parseQueueName "__wkf_workflow_run_42" = Ok (p, queueId) /\
    prefix_string p ++ queueId = "__wkf_workflow_run_42".
Proof.
  apply parseQueueName_round_trip.
  exists wkf_workflow. reflexivity.
Defined.

(** ** Queues *)

(** C8. The name of the Cloud Tasks queue of a kind is the configured
    prefix followed by ["flows"] for workflows and by ["steps"] for steps,
    where the prefix is ["workflow-"] when [queuePrefix] is not set (or is
    the empty string); the two kinds never share a name. *)
Theorem Queues_names (config : JanWorldConfig) :
  let configured :=
    match queuePrefix config with
    | None | Some "" => "workflow-"
    | Some p => p
    end in
  Queues config wkf_workflow = configured ++ "flows" /\
  Queues config wkf_step = configured ++ "steps" /\
  Queues config wkf_workflow <> Queues config wkf_step.
Proof.
  assert (Hprefix : prefix config =
                    match queuePrefix config with
                    | None | Some "" => "workflow-"
                    | Some p => p
                    end).
  { unfold prefix, or_string. destruct (queuePrefix config) as [[|a p]|]; reflexivity. }
  simpl. unfold Queues. rewrite <- Hprefix.
  repeat split.
  intros H. apply append_inj_l in H. discriminate.
Qed.

(** ** The monad *)

Lemma calls_bind {W C A B : Type} (m : M W C A) (k : A -> M W C B) (w : W) :
  calls (bind m k w) =
    (calls (m w) ++
     match value (m w) with
     | Ok a => calls (k a (after (m w)))
     | Throw _ => []
     end)%list.
Proof.
  unfold bind. destruct (value (m w)); simpl; [reflexivity|].
  symmetry. apply app_nil_r.
Qed.

(** A call made by [m ;; k] is made by [m], or by [k] after [m] has
    completed normally. *)
Lemma In_calls_bind {W C A B : Type} (m : M W C A) (k : A -> M W C B) (w : W) (c : C) :
  In c (calls (bind m k w)) ->
  In c (calls (m w)) \/
  exists a, value (m w) = Ok a /\ In c (calls (k a (after (m w)))).
Proof.
  rewrite calls_bind. intros H. apply in_app_or in H. destruct H as [H|H].
  - left. exact H.
  - destruct (value (m w)) as [a|e]; [|destruct H]. right. exists a. split; [reflexivity|exact H].
Qed.

Ltac in_bind H a Ha :=
  apply In_calls_bind in H; destruct H as [H | (a & Ha & H)].

(** ** ensureQueue, queue and processTask *)

Section Properties.

Context {Message Raw Body S E G : Type}.
Context {cloudTasks : client.API S Body}.
Context {jsonTransport : transport.API Message Raw Body}.
Context {messageIdSchema : MessageId.Schema}.
Context {queuePayloadSchema : QueuePayloadSchema.Schema Raw Message}.
Context {monotonicFactory : ulid.MonotonicFactory G}.
Context {embedded : embeddedWorld.API E Message}.

Variable config : JanWorldConfig.
Variable env : ProcessEnv.

Abbreviation world := (World S E G).
Abbreviation call := (Call Message Body).

(** Inside [createQueue(config)] the functions close over [config] and the
    environment. *)
Local Abbreviation ensureQueue := (ensureQueue (Message := Message) config).
Local Abbreviation queue := (queue config env).
Local Abbreviation processTask := (processTask (Body := Body) (S := S) (G := G)).
Local Abbreviation Queues := (Queues config).
Local Abbreviation project := (gcpProjectId config).
Local Abbreviation location := (gcpLocation config).

(** The lookup request of [ensureQueue]. *)
Local Abbreviation lookup queueName :=
  {| gq_name := client.queuePath project location queueName |}.

Lemma code_is_5 (error : Error) : code_is error 5 = true <-> code error = Some 5%Z.
Proof.
  unfold code_is. destruct (code error) as [c|].
  - destruct (Z.eqb_spec c 5); split; congruence.
  - split; discriminate.
Qed.

Lemma ensureQueue_found (queueName : string) (w : world) (s1 : S) :
  client.getQueue (lookup queueName) (cloud w) = (Ok tt, s1) ->
  ensureQueue queueName w =
    {| value := Ok tt;
       after := {| cloud := s1; engine := engine w; factory := factory w |};
       calls := [GetQueue (lookup queueName)] |}.
Proof.
  intros H. unfold ensureQueue, try_catch, await_client, getQueuePath.
  rewrite H. reflexivity.
Qed.

Lemma ensureQueue_not_found (queueName : string) (w : world) (error : Error) (s1 : S) :
  client.getQueue (lookup queueName) (cloud w) = (Throw error, s1) ->
  code error = Some 5%Z ->
  let req :=
    {| cq_parent := client.locationPath project location;
       cq_queue :=
         {| q_name := client.queuePath project location queueName;
            q_rateLimits :=
              {| maxDispatchesPerSecond := or_number (queueConcurrency config) (Num 10) |} |} |} in
  ensureQueue queueName w =
    {| value := fst (client.createQueue req s1);
       after := {| cloud := snd (client.createQueue req s1);
                   engine := engine w; factory := factory w |};
       calls := [GetQueue (lookup queueName); CreateQueue req] |}.
Proof.
  intros H H5 req. apply code_is_5 in H5.
  unfold ensureQueue, try_catch, await_client, getQueuePath.
  rewrite H. simpl. rewrite H5. simpl. fold req.
  destruct (client.createQueue req s1) as [r s2]. reflexivity.
Qed.

Lemma ensureQueue_other_error (queueName : string) (w : world) (error : Error) (s1 : S) :
  client.getQueue (lookup queueName) (cloud w) = (Throw error, s1) ->
  code error <> Some 5%Z ->
  ensureQueue queueName w =
    {| value := Throw error;
       after := {| cloud := s1; engine := engine w; factory := factory w |};
       calls := [GetQueue (lookup queueName)] |}.
Proof.
  intros H H5. assert (Hc : code_is error 5 = false).
  { destruct (code_is error 5) eqn:Hc; [|reflexivity]. apply code_is_5 in Hc. contradiction. }
  unfold ensureQueue, try_catch, await_client, getQueuePath.
  rewrite H. simpl. rewrite Hc. reflexivity.
Qed.

Lemma code_5_dec (error : Error) : {code error = Some 5%Z} + {code error <> Some 5%Z}.
Proof.
  destruct (code error) as [c|]; [|right; discriminate].
  destruct (Z.eq_dec c 5) as [->|Hc]; [left; reflexivity|right; congruence].
Qed.

(** [ensureQueue] submits no task. *)
Lemma ensureQueue_no_CreateTask (queueName : string) (w : world) (req : CreateTaskRequest Body) :
  ~ In (CreateTask req) (calls (ensureQueue queueName w)).
Proof.
  destruct (client.getQueue (lookup queueName) (cloud w)) as [[[]|error] s1] eqn:H.
  - rewrite (ensureQueue_found _ _ _ H). simpl. intros [Hc|[]]. discriminate.
  - destruct (code_5_dec error) as [H5|H5].
    + rewrite (ensureQueue_not_found _ _ _ _ H H5). simpl.
      intros [Hc|[Hc|[]]]; discriminate.
    + rewrite (ensureQueue_other_error _ _ _ _ H H5). simpl.
      intros [Hc|[]]. discriminate.
Qed.

(** [ensureQueue] leaves the embedded world and the factory alone. *)
Lemma ensureQueue_frame (queueName : string) (w : world) :
  engine (after (ensureQueue queueName w)) = engine w /\
  factory (after (ensureQueue queueName w)) = factory w.
Proof.
  destruct (client.getQueue (lookup queueName) (cloud w)) as [[[]|error] s1] eqn:H.
  - rewrite (ensureQueue_found _ _ _ H). simpl. auto.
  - destruct (code_5_dec error) as [H5|H5].
    + rewrite (ensureQueue_not_found _ _ _ _ H H5). simpl. auto.
    + rewrite (ensureQueue_other_error _ _ _ _ H H5). simpl. auto.
Qed.

Lemma or_number_cases (x : option number) :
  or_number x (Num 10) =
    match x with
    | Some (Num z) => if Z.eqb z 0 then Num 10 else Num z
    | Some NaN | None => Num 10
    end.
Proof.
  destruct x as [[|z]|]; simpl; try reflexivity.
  destruct (Z.eqb z 0); reflexivity.
Qed.

(** C5. When the lookup of [ensureQueue] fails with code 5 (not found),
    the queue is created under the location of the configured project,
    with the configured rate as its [maxDispatchesPerSecond] (10 when none
    is configured, or when 0 or NaN is), and [ensureQueue] completes as the
    creation does: normally when the queue was created.  When the lookup
    fails in any other way, that same error is thrown and there is no
    [createQueue] call. *)
Theorem ensureQueue_lookup_fails
  (queueName : string) (w : world) (error : Error) (s1 : S) :
  client.getQueue (lookup queueName) (cloud w) = (Throw error, s1) ->
  let r := ensureQueue queueName w in
  let rate :=
    match queueConcurrency config with
    | Some (Num z) => if Z.eqb z 0 then Num 10 else Num z
    | Some NaN | None => Num 10
    end in
  let req :=
    {| cq_parent := client.locationPath project location;
       cq_queue :=
         {| q_name := client.queuePath project location queueName;
            q_rateLimits := {| maxDispatchesPerSecond := rate |} |} |} in
  (code error = Some 5%Z ->
     calls r = [GetQueue (lookup queueName); CreateQueue req] /\
     value r = fst (client.createQueue req s1) /\
     cloud (after r) = snd (client.createQueue req s1) /\
     (fst (client.createQueue req s1) = Ok tt -> value r = Ok tt)) /\
  (code error <> Some 5%Z ->
     value r = Throw error /\
     calls r = [GetQueue (lookup queueName)] /\
     cloud (after r) = s1).
Proof.
  intros H r rate req. subst r rate req. split; intros H5.
  - rewrite (ensureQueue_not_found _ _ _ _ H H5), <- or_number_cases. simpl.
    repeat split. intros Hc. exact Hc.
  - rewrite (ensureQueue_other_error _ _ _ _ H H5). simpl. repeat split.
Qed.

(** C10. With [queueConcurrency] set to 0 (or to NaN), a queue created by
    [ensureQueue] gets [maxDispatchesPerSecond] 10, as if the option were
    not set. *)
Theorem ensureQueue_falsy_concurrency
  (queueName : string) (w : world) (error : Error) (s1 : S) (configured : number) :
  queueConcurrency config = Some configured ->
  configured = Num 0 \/ configured = NaN ->
  client.getQueue (lookup queueName) (cloud w) = (Throw error, s1) ->
  code error = Some 5%Z ->
  exists req,
    calls (ensureQueue queueName w) = [GetQueue (lookup queueName); CreateQueue req] /\
    maxDispatchesPerSecond (q_rateLimits (cq_queue req)) = Num 10 /\
    maxDispatchesPerSecond (q_rateLimits (cq_queue req)) <> configured.
Proof.
  intros Hcfg Hfalsy H H5.
  rewrite (ensureQueue_not_found _ _ _ _ H H5). simpl.
  eexists. split; [reflexivity|]. simpl. rewrite Hcfg.
  destruct Hfalsy as [-> | ->]; simpl; split; (reflexivity || discriminate).
Qed.

(** *** Two calls in a row *)

Section Idempotence.

(** The service, left alone between two calls: a queue that was found is
    found again, and a queue that was created is found. *)
Hypothesis found_again : forall (req : GetQueueRequest) (s s1 : S),
  client.getQueue req s = (Ok tt, s1) ->
  fst (client.getQueue req s1) = Ok tt.

Hypothesis created_is_found : forall (req : CreateQueueRequest) (s s1 : S),
  client.createQueue req s = (Ok tt, s1) ->
  fst (client.getQueue {| gq_name := q_name (cq_queue req) |} s1) = Ok tt.

Lemma ensureQueue_Ok_found (queueName : string) (w : world) :
  value (ensureQueue queueName w) = Ok tt ->
  fst (client.getQueue (lookup queueName) (cloud (after (ensureQueue queueName w)))) = Ok tt /\
  createQueue_calls (calls (ensureQueue queueName w)) <= 1.
Proof.
  destruct (client.getQueue (lookup queueName) (cloud w)) as [[[]|error] s1] eqn:H.
  - rewrite (ensureQueue_found _ _ _ H). simpl. intros _. split; [|unfold createQueue_calls; simpl; lia].
    apply (found_again _ _ _ H).
  - destruct (code_5_dec error) as [H5|H5].
    + rewrite (ensureQueue_not_found _ _ _ _ H H5). simpl. intros Hc. split; [|unfold createQueue_calls; simpl; lia].
      match type of Hc with fst (client.createQueue ?r _) = _ => set (req := r) in * end.
      destruct (client.createQueue req s1) as [c s2] eqn:Hcreate. simpl in *. subst c.
      apply (created_is_found _ _ _ Hcreate).
    + rewrite (ensureQueue_other_error _ _ _ _ H H5). simpl. discriminate.
Qed.

(** C9. When a first [ensureQueue] has completed normally (it found the
    queue or created it), a second one for the same name only looks the
    queue up and completes normally; the two calls together make at most
    one [createQueue] call. *)
Theorem ensureQueue_twice (queueName : string) (w : world) :
  let first := ensureQueue queueName w in
  let second := ensureQueue queueName (after first) in
  value first = Ok tt ->
  value second = Ok tt /\
  calls second = [GetQueue (lookup queueName)] /\
  createQueue_calls (calls second) = 0 /\
  createQueue_calls (calls first ++ calls second) <= 1.
Proof.
  intros first second Hfirst. subst first second.
  destruct (ensureQueue_Ok_found _ _ Hfirst) as [Hfound Hcount].
  destruct (client.getQueue (lookup queueName)
              (cloud (after (ensureQueue queueName w)))) as [c s2] eqn:H.
  simpl in Hfound. subst c.
  rewrite (ensureQueue_found _ _ _ H). simpl.
  repeat split.
  unfold createQueue_calls in *. rewrite filter_app, length_app. simpl. lia.
Qed.

End Idempotence.

(** *** queue *)

(** C6. For a queue name that starts with neither prefix, [queue] throws
    the error [Invalid queue name: <name>] of [parseQueueName] before
    anything else happens: no call is made and no state moves. *)
Theorem queue_invalid_name
  (name : string) (message : Message) (opts : option QueueOptions) (w : world) :
  (forall p, startsWith name (prefix_string p) = false) ->
  queue name message opts w =
    {| value := Throw (newError ("Invalid queue name: " ++ name));
       after := w;
       calls := [] |}.
Proof.
  intros H. unfold queue, bind, lift.
  rewrite (parseQueueName_unrecognized _ H). reflexivity.
Qed.

Lemma bind_Ok {W C A B : Type} (m : M W C A) (k : A -> M W C B) (w0 : W) (a : A) :
  value (m w0) = Ok a ->
  bind m k w0 =
    {| value := value (k a (after (m w0)));
       after := after (k a (after (m w0)));
       calls := calls (m w0) ++ calls (k a (after (m w0))) |}.
Proof. intros H. unfold bind. rewrite H. reflexivity. Qed.

Lemma bind_Throw {W C A B : Type} (m : M W C A) (k : A -> M W C B) (w0 : W) (e : Error) :
  value (m w0) = Throw e ->
  bind m k w0 = {| value := Throw e; after := after (m w0); calls := calls (m w0) |}.
Proof. intros H. unfold bind. rewrite H. reflexivity. Qed.

Lemma generateMessageId_run (w : world) :
  generateMessageId (Message := Message) (Body := Body) w =
    {| value := fst (ulid.next (factory w));
       after := {| cloud := cloud w; engine := engine w;
                   factory := snd (ulid.next (factory w)) |};
       calls := [] |}.
Proof. unfold generateMessageId. destruct (ulid.next (factory w)). reflexivity. Qed.

Lemma await_client_run {A : Type} (c : call) (f : S -> completion A * S) (w : world) :
  await_client (E := E) (G := G) c f w =
    {| value := fst (f (cloud w));
       after := {| cloud := snd (f (cloud w)); engine := engine w; factory := factory w |};
       calls := [c] |}.
Proof. unfold await_client. destruct (f (cloud w)). reflexivity. Qed.

Ltac run_Ok H :=
  erewrite bind_Ok by (first [exact H | reflexivity]);
  cbn [value after calls lift ret app]; cbv beta iota.

Ltac run_Throw H :=
  erewrite bind_Throw by (first [exact H | reflexivity]);
  cbn [value after calls lift ret app].

(** The task of [queue], before it is named. *)
Local Abbreviation task_of p queueId opts serialized messageId :=
  {| httpRequest :=
       {| httpMethod := "POST";
          url := or_string (TASK_HANDLER_URL env) "http://localhost:3000/api/tasks";
          headers := [("Content-Type", "application/json")];
          body :=
            {| tb_id := queueId;
               tb_data := serialized;
               tb_messageId := messageId;
               tb_idempotencyKey := idempotencyKey_of opts;
               tb_prefix := prefix_string p |} |};
     t_name := None |}.

(** The end of a run of [queue] that submits [task] from the world [w]. *)
Local Abbreviation submitting p w made g1 messageId task :=
  {| value :=
       match fst (client.createTask
                    {| ct_parent := client.queuePath project location (Queues p);
                       ct_task := task |} (cloud w)) with
       | Ok _ => Ok messageId
       | Throw e => Throw e
       end;
     after :=
       {| cloud := snd (client.createTask
                          {| ct_parent := client.queuePath project location (Queues p);
                             ct_task := task |} (cloud w));
          engine := engine w;
          factory := g1 |};
     calls :=
       app made
         (cons (CreateTask {| ct_parent := client.queuePath project location (Queues p);
                              ct_task := task |}) nil) |}.

(** A run of [queue], step by step. *)
Lemma queue_eq
  (name : string) (message : Message) (opts : option QueueOptions) (w : world)
  (p : QueuePrefix) (queueId : string) :
  parseQueueName name = Ok (p, queueId) ->
  let ens := ensureQueue (Queues p) w in
  let g1 := snd (ulid.next (factory (after ens))) in
  let stopped e g :=
    {| value := Throw e;
       after := {| cloud := cloud (after ens); engine := engine (after ens); factory := g |};
       calls := calls ens |} in
  queue name message opts w =
    match value ens with
    | Throw e => {| value := Throw e; after := after ens; calls := calls ens |}
    | Ok _ =>
        match transport.serialize message with
        | Throw e => {| value := Throw e; after := after ens; calls := calls ens |}
        | Ok serialized =>
            match fst (ulid.next (factory (after ens))) with
            | Throw e => stopped e g1
            | Ok generated =>
                match MessageId.parse ("msg_" ++ generated) with
                | Throw e => stopped e g1
                | Ok messageId =>
                    let task := task_of p queueId opts serialized messageId in
                    match idempotencyKey_of opts with
                    | Some key =>
                        if truthy_string key then
                          match client.taskPath project location (Queues p) key with
                          | Ok taskName =>
                              submitting p (after ens) (calls ens) g1 messageId
                                (with_name task taskName)
                          | Throw e => stopped e g1
                          end
                        else submitting p (after ens) (calls ens) g1 messageId task
                    | None => submitting p (after ens) (calls ens) g1 messageId task
                    end
                end
            end
        end
    end.
Proof.
  intros Hparse ens g1 stopped. subst ens g1 stopped.
  unfold queue. run_Ok Hparse.
  destruct (value (ensureQueue (Queues p) w)) as [[]|e] eqn:Hens;
    [run_Ok Hens|run_Throw Hens; reflexivity].
  destruct (transport.serialize message) as [serialized|e] eqn:Hbody;
    [run_Ok Hbody|run_Throw Hbody; rewrite ?app_nil_r; reflexivity].
  destruct (fst (ulid.next (factory (after (ensureQueue (Queues p) w)))))
    as [generated|e] eqn:Hid.
  2: { erewrite bind_Throw by (rewrite generateMessageId_run; exact Hid).
       rewrite generateMessageId_run. cbn [value after calls].
       rewrite ?app_nil_r. reflexivity. }
  erewrite bind_Ok by (rewrite generateMessageId_run; exact Hid).
  rewrite generateMessageId_run. cbn [value after calls app lift ret]. cbv beta iota.
  destruct (MessageId.parse ("msg_" ++ generated)) as [messageId|e] eqn:HmessageId;
    [run_Ok HmessageId|run_Throw HmessageId; rewrite ?app_nil_r; reflexivity].
  destruct (idempotencyKey_of opts) as [key|];
    [destruct (truthy_string key);
       [destruct (client.taskPath project location (Queues p) key) as [taskName|e]|]|];
    unfold bind, lift, ret; cbv beta; rewrite ?await_client_run;
    cbn [value after calls cloud engine factory app]; cbv beta iota;
    rewrite ?await_client_run; cbn [value after calls cloud engine factory app];
    unfold getQueuePath;
    try match goal with
        | |- context [fst (client.createTask ?r ?s)] =>
            destruct (fst (client.createTask r s)) as [[]|e']
        end;
    cbn [value after calls cloud engine factory app]; rewrite ?app_nil_r; reflexivity.
Qed.
(** The name under which [queue] submits a task. *)
Lemma queue_CreateTask_name
  (name : string) (message : Message) (opts : option QueueOptions) (w : world)
  (p : QueuePrefix) (queueId : string) (req : CreateTaskRequest Body) :
  parseQueueName name = Ok (p, queueId) ->
  In (CreateTask req) (calls (queue name message opts w)) ->
  t_name (ct_task req) =
    match idempotencyKey_of opts with
    | None | Some "" => None
    | Some key =>
        match client.taskPath project location (Queues p) key with
        | Ok taskName => Some taskName
        | Throw _ => None
        end
    end.
Proof.
  intros Hparse Hin. unfold queue in Hin.
  in_bind Hin parsed Hparsed; [destruct Hin|].
  cbn [lift value after] in Hparsed, Hin. rewrite Hparse in Hparsed.
  injection Hparsed as <-.
  in_bind Hin u Hensure; [destruct (ensureQueue_no_CreateTask _ _ _ Hin)|].
  in_bind Hin serialized Hserialized; [destruct Hin|]. cbn [lift value after] in Hin.
  in_bind Hin generated Hgenerated.
  { unfold generateMessageId in Hin. destruct (ulid.next _) in Hin. destruct Hin. }
  in_bind Hin parsedId HparsedId; [destruct Hin|]. cbn [lift value after] in Hin.
  in_bind Hin u' Hsubmit; [|destruct Hin].
  destruct (idempotencyKey_of opts) as [[|a key]|]; simpl in Hin.
  - unfold await_client in Hin. destruct (client.createTask _ _) in Hin.
    simpl in Hin. destruct Hin as [Hin|[]]. injection Hin as <-. reflexivity.
  - in_bind Hin taskName HtaskName; [destruct Hin|].
    cbn [lift value after] in HtaskName, Hin. rewrite HtaskName.
    unfold await_client in Hin. destruct (client.createTask _ _) in Hin.
    simpl in Hin. destruct Hin as [Hin|[]]. injection Hin as <-. reflexivity.
  - unfold await_client in Hin. destruct (client.createTask _ _) in Hin.
    simpl in Hin. destruct Hin as [Hin|[]]. injection Hin as <-. reflexivity.
Qed.

(** A call of [queue] gets as far as the task when the queue is ensured,
    the message serializes, the factory gives an id and [MessageId]
    accepts it. *)
Local Abbreviation reaches_task message w p serialized generated messageId :=
  (value (ensureQueue (Queues p) w) = Ok tt /\
   transport.serialize message = Ok serialized /\
   fst (ulid.next (factory w)) = Ok generated%string /\
   MessageId.parse ("msg_" ++ generated) = Ok messageId).

(** A call that gets as far as the task ends with exactly one
    [createTask] call, named by [taskPath] for a key and without a name
    otherwise; only a key that [taskPath] does not render makes it throw
    with no task submitted. *)
Lemma queue_submits
  (name : string) (message : Message) (opts : option QueueOptions) (w : world)
  (p : QueuePrefix) (queueId : string) (serialized : Body)
  (generated messageId : string) :
  parseQueueName name = Ok (p, queueId) ->
  reaches_task message w p serialized generated messageId ->
  match idempotencyKey_of opts with
  | None | Some "" =>
      exists req,
        calls (queue name message opts w) =
          (calls (ensureQueue (Queues p) w) ++ [CreateTask req])%list /\
        t_name (ct_task req) = None
  | Some key =>
      match client.taskPath project location (Queues p) key with
      | Ok taskName =>
          exists req,
            calls (queue name message opts w) =
              (calls (ensureQueue (Queues p) w) ++ [CreateTask req])%list /\
            t_name (ct_task req) = Some taskName
      | Throw e =>
          calls (queue name message opts w) = calls (ensureQueue (Queues p) w) /\
          value (queue name message opts w) = Throw e
      end
  end.
Proof.
  intros Hparse (Hensure & Hbody & Hid & HmessageId).
  destruct (ensureQueue_frame (Queues p) w) as [_ Hfactory].
  rewrite (queue_eq name message opts w p queueId Hparse). cbv zeta.
  rewrite Hensure, Hbody, Hfactory, Hid, HmessageId.
  destruct (idempotencyKey_of opts) as [[|a key]|]; cbn [truthy_string String.eqb negb].
  - eexists. split; reflexivity.
  - destruct (client.taskPath project location (Queues p) (String a key)) as [taskName|e].
    + eexists. split; reflexivity.
    + split; reflexivity.
  - eexists. split; reflexivity.
Qed.

(** C3. Take two calls of [queue] for names with the same prefix and with
    the same [idempotencyKey], each getting as far as the task.  With a
    key, both end with one [createTask] call whose task has the same name,
    the [taskPath] of the project, the location, the queue of the prefix
    and the key (a key that [taskPath] does not render makes both throw
    its error with no task submitted).  Without a key, or with the empty
    key, both end with one [createTask] call whose task has no name. *)
Theorem queue_task_name_deterministic
  (p : QueuePrefix) (name1 name2 queueId1 queueId2 : string)
  (message1 message2 : Message) (opts1 opts2 : option QueueOptions)
  (w1 w2 : world) (serialized1 serialized2 : Body)
  (generated1 generated2 messageId1 messageId2 : string) :
  parseQueueName name1 = Ok (p, queueId1) ->
  parseQueueName name2 = Ok (p, queueId2) ->
  idempotencyKey_of opts1 = idempotencyKey_of opts2 ->
  reaches_task message1 w1 p serialized1 generated1 messageId1 ->
  reaches_task message2 w2 p serialized2 generated2 messageId2 ->
  match idempotencyKey_of opts1 with
  | None | Some "" =>
      exists req1 req2,
        calls (queue name1 message1 opts1 w1) =
          (calls (ensureQueue (Queues p) w1) ++ [CreateTask req1])%list /\
        calls (queue name2 message2 opts2 w2) =
          (calls (ensureQueue (Queues p) w2) ++ [CreateTask req2])%list /\
        t_name (ct_task req1) = None /\
        t_name (ct_task req2) = None
  | Some key =>
      match client.taskPath project location (Queues p) key with
      | Ok taskName =>
          exists req1 req2,
            calls (queue name1 message1 opts1 w1) =
              (calls (ensureQueue (Queues p) w1) ++ [CreateTask req1])%list /\
            calls (queue name2 message2 opts2 w2) =
              (calls (ensureQueue (Queues p) w2) ++ [CreateTask req2])%list /\
            t_name (ct_task req1) = Some taskName /\
            t_name (ct_task req2) = Some taskName
      | Throw e =>
          (calls (queue name1 message1 opts1 w1) = calls (ensureQueue (Queues p) w1) /\
           value (queue name1 message1 opts1 w1) = Throw e) /\
          (calls (queue name2 message2 opts2 w2) = calls (ensureQueue (Queues p) w2) /\
           value (queue name2 message2 opts2 w2) = Throw e)
      end
  end.
Proof.
  intros Hparse1 Hparse2 Hkey Hreach1 Hreach2.
  pose proof (queue_submits name1 message1 opts1 w1 p queueId1 _ _ _ Hparse1 Hreach1) as H1.
  pose proof (queue_submits name2 message2 opts2 w2 p queueId2 _ _ _ Hparse2 Hreach2) as H2.
  rewrite <- Hkey in H2.
  destruct (idempotencyKey_of opts1) as [[|a key]|].
  - destruct H1 as (req1 & Hc1 & Hn1), H2 as (req2 & Hc2 & Hn2).
    exists req1, req2. auto.
  - destruct (client.taskPath project location (Queues p) (String a key)) as [taskName|e].
    + destruct H1 as (req1 & Hc1 & Hn1), H2 as (req2 & Hc2 & Hn2).
      exists req1, req2. auto.
    + split; assumption.
  - destruct H1 as (req1 & Hc1 & Hn1), H2 as (req2 & Hc2 & Hn2).
    exists req1, req2. auto.
Qed.

(** *** processTask *)

Local Abbreviation forwarded payload :=
  (template (p_prefix payload) ++ template (p_id payload)).

Local Abbreviation forwarded_opts payload :=
  {| opt_idempotencyKey := p_idempotencyKey payload |}.

Lemma processTask_forwards (payload : TaskPayload) (w : world) (raw : Raw) (message : Message) :
  transport.deserialize (p_data payload) = Ok raw ->
  QueuePayloadSchema.parse raw = Ok message ->
  let enqueue :=
    embeddedWorld.queue (forwarded payload) message (forwarded_opts payload) (engine w) in
  processTask payload w =
    {| value := match fst enqueue with Ok _ => Ok tt | Throw e => Throw e end;
       after := {| cloud := cloud w; engine := snd enqueue; factory := factory w |};
       calls := [EngineQueue (forwarded payload) message (forwarded_opts payload)] |}.
Proof.
  intros Hraw Hmessage enqueue. subst enqueue.
  unfold processTask, bind, lift, await_embedded, ret. simpl.
  rewrite Hraw. simpl. rewrite Hmessage. simpl.
  destruct (embeddedWorld.queue _ _ _ _) as [[messageId|e] e']; reflexivity.
Qed.

Lemma processTask_rejects (payload : TaskPayload) (w : world) (e : Error) :
  transport.deserialize (p_data payload) = Throw e \/
  (exists raw, transport.deserialize (p_data payload) = Ok raw /\
               QueuePayloadSchema.parse raw = Throw e) ->
  processTask payload w = {| value := Throw e; after := w; calls := [] |}.
Proof.
  intros [Hraw | (raw & Hraw & Hmessage)];
    unfold processTask, bind, lift; simpl; rewrite Hraw; simpl;
    [|rewrite Hmessage]; reflexivity.
Qed.

(** C2. For a payload with a [prefix] and an [id] whose [data]
    deserializes to a body that the schema accepts, [processTask] makes one
    call: the embedded world's [queue], with the name [prefix + id], the
    parsed message and the payload's [idempotencyKey]; it completes as that
    call does. *)
Theorem processTask_requeues
  (payload : TaskPayload) (w : world)
  (payload_prefix payload_id : string) (raw : Raw) (message : Message) :
  p_prefix payload = Some payload_prefix ->
  p_id payload = Some payload_id ->
  transport.deserialize (p_data payload) = Ok raw ->
  QueuePayloadSchema.parse raw = Ok message ->
  let queueName := payload_prefix ++ payload_id in
  let opts := {| opt_idempotencyKey := p_idempotencyKey payload |} in
  let r := processTask payload w in
  calls r = [EngineQueue queueName message opts] /\
  value r =
    match fst (embeddedWorld.queue queueName message opts (engine w)) with
    | Ok _ => Ok tt
    | Throw e => Throw e
    end /\
  engine (after r) = snd (embeddedWorld.queue queueName message opts (engine w)).
Proof.
  intros Hprefix Hid Hraw Hmessage queueName opts r. subst queueName opts r.
  rewrite (processTask_forwards _ _ _ _ Hraw Hmessage).
  rewrite Hprefix, Hid. simpl. repeat split.
Qed.

(** C4, as the code has it.  [processTask] does not look at the envelope.
    It throws, without calling the embedded world, exactly when [data]
    does not deserialize or the body is not accepted by the schema, and
    the error is the one of the transport or of the schema.  Otherwise
    the message is queued in the embedded world under the name
    [`${prefix}${id}`], whatever [prefix] is; a property that is absent
    reads ["undefined"]. *)
Theorem processTask_envelope_unchecked (payload : TaskPayload) (w : world) :
  let r := processTask payload w in
  match transport.deserialize (p_data payload) with
  | Throw e => value r = Throw e /\ calls r = []
  | Ok raw =>
      match QueuePayloadSchema.parse raw with
      | Throw e => value r = Throw e /\ calls r = []
      | Ok message =>
          let queueName := template (p_prefix payload) ++ template (p_id payload) in
          let opts := {| opt_idempotencyKey := p_idempotencyKey payload |} in
          calls r = [EngineQueue queueName message opts] /\
          value r =
            match fst (embeddedWorld.queue queueName message opts (engine w)) with
            | Ok _ => Ok tt
            | Throw e => Throw e
            end
      end
  end.
Proof.
  intros r. subst r.
  destruct (transport.deserialize (p_data payload)) as [raw|e] eqn:Hraw.
  - destruct (QueuePayloadSchema.parse raw) as [message|e] eqn:Hmessage.
    + rewrite (processTask_forwards _ _ _ _ Hraw Hmessage). split; reflexivity.
    + rewrite (processTask_rejects _ _ e); [split; reflexivity|].
      right. exists raw. split; assumption.
  - rewrite (processTask_rejects _ _ e); [split; reflexivity|].
    left. assumption.
Qed.

End Properties.

(** * Further properties of queue.ts *)

Section Behaviour.

Context {Message Raw Body S E G : Type}.
Context {cloudTasks : client.API S Body}.
Context {jsonTransport : transport.API Message Raw Body}.
Context {messageIdSchema : MessageId.Schema}.
Context {queuePayloadSchema : QueuePayloadSchema.Schema Raw Message}.
Context {monotonicFactory : ulid.MonotonicFactory G}.
Context {embedded : embeddedWorld.API E Message}.

Variable config : JanWorldConfig.
Variable env : ProcessEnv.

Abbreviation world := (World S E G).
Abbreviation call := (Call Message Body).

Local Abbreviation ensureQueue := (ensureQueue (Message := Message) config).
Local Abbreviation start := (start (Message := Message) config).
Local Abbreviation queue := (queue config env).
Local Abbreviation processTask := (processTask (Body := Body) (S := S) (G := G)).
Local Abbreviation Queues := (Queues config).
Local Abbreviation project := (gcpProjectId config).
Local Abbreviation location := (gcpLocation config).
Local Abbreviation lookup queueName :=
  {| gq_name := client.queuePath project location queueName |}.

(** ** parseQueueName *)

Lemma parseQueueName_spells (name : string) (p : QueuePrefix) (queueId : string) :
  parseQueueName name = Ok (p, queueId) -> prefix_string p ++ queueId = name.
Proof.
  intros H. destruct (parseQueueName_Ok _ _ _ H) as [Hstarts ->].
  apply startsWith_slice, Hstarts.
Qed.

(** X1. [parseQueueName] accepts exactly the names made of a prefix and a
    queue id, and gives back that prefix and that id: the id may be empty,
    or start with a prefix itself. *)
Theorem parseQueueName_iff (name : string) (p : QueuePrefix) (queueId : string) :
  parseQueueName name = Ok (p, queueId) <-> name = prefix_string p ++ queueId.
Proof.
  split.
  - intros H. symmetry. apply parseQueueName_spells, H.
  - intros ->. apply parseQueueName_prefix.
Qed.

(** ** ensureQueue *)

Lemma ensureQueue_only_queue_calls (queueName : string) (w : world) (c : call) :
  In c (calls (ensureQueue queueName w)) ->
  (exists req, c = GetQueue req) \/ (exists req, c = CreateQueue req).
Proof.
  destruct (client.getQueue (lookup queueName) (cloud w)) as [[[]|error] s1] eqn:H.
  - rewrite (ensureQueue_found config _ _ _ H). simpl. intros [<-|[]]. eauto.
  - destruct (code_5_dec error) as [H5|H5].
    + rewrite (ensureQueue_not_found config _ _ _ _ H H5). simpl.
      intros [<-|[<-|[]]]; eauto.
    + rewrite (ensureQueue_other_error config _ _ _ _ H H5). simpl.
      intros [<-|[]]. eauto.
Qed.

(** X2. When the lookup finds the queue, [ensureQueue] is that lookup and
    nothing more: it completes normally and makes no [createQueue] call, so
    a queue that exists keeps the rate limit it has. *)
Theorem ensureQueue_existing (queueName : string) (w : world) (s1 : S) :
  client.getQueue (lookup queueName) (cloud w) = (Ok tt, s1) ->
  value (ensureQueue queueName w) = Ok tt /\
  calls (ensureQueue queueName w) = [GetQueue (lookup queueName)] /\
  createQueue_calls (calls (ensureQueue queueName w)) = 0 /\
  cloud (after (ensureQueue queueName w)) = s1.
Proof.
  intros H. rewrite (ensureQueue_found config _ _ _ H). repeat split.
Qed.

(** X3. [ensureQueue] makes at most one [createQueue] call, and only once
    the lookup of that same queue name has come back: a run that creates
    a queue is the [getQueue] call for the name followed by the
    [createQueue] call.  It makes no call of another kind, and leaves the
    embedded world and the id factory as they were. *)
Theorem ensureQueue_calls_shape (queueName : string) (w : world) :
  createQueue_calls (calls (ensureQueue queueName w)) <= 1 /\
  (forall req,
     In (CreateQueue req) (calls (ensureQueue queueName w)) ->
     calls (ensureQueue queueName w) =
       [GetQueue {| gq_name := q_name (cq_queue req) |}; CreateQueue req]) /\
  (forall c,
     In c (calls (ensureQueue queueName w)) ->
     (exists req, c = GetQueue req) \/ (exists req, c = CreateQueue req)) /\
  engine (after (ensureQueue queueName w)) = engine w /\
  factory (after (ensureQueue queueName w)) = factory w.
Proof.
  split; [|split; [|split; [|apply ensureQueue_frame]]].
  - destruct (client.getQueue (lookup queueName) (cloud w)) as [[[]|error] s1] eqn:H.
    + rewrite (ensureQueue_found config _ _ _ H). unfold createQueue_calls. simpl. lia.
    + destruct (code_5_dec error) as [H5|H5].
      * rewrite (ensureQueue_not_found config _ _ _ _ H H5).
        unfold createQueue_calls. simpl. lia.
      * rewrite (ensureQueue_other_error config _ _ _ _ H H5).
        unfold createQueue_calls. simpl. lia.
  - intros req.
    destruct (client.getQueue (lookup queueName) (cloud w)) as [[[]|error] s1] eqn:H.
    + rewrite (ensureQueue_found config _ _ _ H). simpl. intros [Hin|[]]. discriminate.
    + destruct (code_5_dec error) as [H5|H5].
      * rewrite (ensureQueue_not_found config _ _ _ _ H H5). simpl.
        intros [Hin|[Hin|[]]]; [discriminate|]. injection Hin as <-. reflexivity.
      * rewrite (ensureQueue_other_error config _ _ _ _ H H5). simpl.
        intros [Hin|[]]. discriminate.
  - intros c. apply ensureQueue_only_queue_calls.
Qed.

(** X4. An error of [createQueue] is not caught: when the lookup misses
    the queue and the creation throws, [ensureQueue] throws that error,
    also when it says that the queue already exists. *)
Theorem ensureQueue_create_throws
  (queueName : string) (w : world) (missing thrown : Error) (s1 s2 : S)
  (req : CreateQueueRequest) :
  client.getQueue (lookup queueName) (cloud w) = (Throw missing, s1) ->
  code missing = Some 5%Z ->
  In (CreateQueue req) (calls (ensureQueue queueName w)) ->
  client.createQueue req s1 = (Throw thrown, s2) ->
  value (ensureQueue queueName w) = Throw thrown /\
  cloud (after (ensureQueue queueName w)) = s2.
Proof.
  intros H H5. rewrite (ensureQueue_not_found config _ _ _ _ H H5). simpl.
  intros [Hin|[Hin|[]]]; [discriminate|]. injection Hin as <-.
  intros Hcreate. rewrite Hcreate. split; reflexivity.
Qed.

(** ** queue *)

(** What a [createTask] request of [queue] on [prefix + queueId] looks
    like. *)
Local Abbreviation submission_of p queueId opts messageId req :=
  (ct_parent req = client.queuePath project location (Queues p) /\
   httpMethod (httpRequest (ct_task req)) = "POST" /\
   url (httpRequest (ct_task req)) =
     or_string (TASK_HANDLER_URL env) "http://localhost:3000/api/tasks" /\
   headers (httpRequest (ct_task req)) = [("Content-Type", "application/json")] /\
   tb_id (body (httpRequest (ct_task req))) = queueId /\
   tb_prefix (body (httpRequest (ct_task req))) = prefix_string p /\
   tb_idempotencyKey (body (httpRequest (ct_task req))) = idempotencyKey_of opts /\
   tb_messageId (body (httpRequest (ct_task req))) = messageId).

(** A run of [queue] on a name that parses: either it throws before any
    task is submitted, having made the calls of [ensureQueue] only, or
    [ensureQueue] completed normally, the message was serialized, an id
    was taken from the factory, and the run ends with one [createTask]
    call and completes as that call does. *)
Lemma queue_run
  (name : string) (message : Message) (opts : option QueueOptions) (w : world)
  (p : QueuePrefix) (queueId : string) :
  parseQueueName name = Ok (p, queueId) ->
  (calls (queue name message opts w) = calls (ensureQueue (Queues p) w) /\
   exists e, value (queue name message opts w) = Throw e) \/
  (exists req generated messageId,
     calls (queue name message opts w) =
       (calls (ensureQueue (Queues p) w) ++ [CreateTask req])%list /\
     value (ensureQueue (Queues p) w) = Ok tt /\
     transport.serialize message = Ok (tb_data (body (httpRequest (ct_task req)))) /\
     fst (ulid.next (factory w)) = Ok generated /\
     MessageId.parse ("msg_" ++ generated) = Ok messageId /\
     submission_of p queueId opts messageId req /\
     value (queue name message opts w) =
       match fst (client.createTask req (cloud (after (ensureQueue (Queues p) w)))) with
       | Ok _ => Ok messageId
       | Throw e => Throw e
       end).
Proof.
  intros Hparse.
  destruct (ensureQueue_frame (Message := Message) config (Queues p) w) as [_ Hfactory].
  rewrite (queue_eq config env name message opts w p queueId Hparse). cbv zeta.
  rewrite Hfactory.
  destruct (value (ensureQueue (Queues p) w)) as [[]|e]; [|left; split; [reflexivity|eexists; reflexivity]].
  destruct (transport.serialize message) as [serialized|e]; [|left; split; [reflexivity|eexists; reflexivity]].
  destruct (fst (ulid.next (factory w))) as [generated|e]; [|left; split; [reflexivity|eexists; reflexivity]].
  destruct (MessageId.parse ("msg_" ++ generated)) as [messageId|e] eqn:HmessageId;
    [|left; split; [reflexivity|eexists; reflexivity]].
  destruct (idempotencyKey_of opts) as [key|];
    [destruct (truthy_string key);
       [destruct (client.taskPath project location (Queues p) key) as [taskName|e];
          [|left; split; [reflexivity|eexists; reflexivity]]|]|];
    right; eexists _, generated, messageId;
    cbn [value after calls]; repeat split; exact HmessageId.
Qed.

Lemma queue_CreateTask
  (name : string) (message : Message) (opts : option QueueOptions) (w : world)
  (p : QueuePrefix) (queueId : string) (req : CreateTaskRequest Body) :
  parseQueueName name = Ok (p, queueId) ->
  In (CreateTask req) (calls (queue name message opts w)) ->
  exists generated messageId,
    calls (queue name message opts w) =
      (calls (ensureQueue (Queues p) w) ++ [CreateTask req])%list /\
    value (ensureQueue (Queues p) w) = Ok tt /\
    transport.serialize message = Ok (tb_data (body (httpRequest (ct_task req)))) /\
    fst (ulid.next (factory w)) = Ok generated /\
    MessageId.parse ("msg_" ++ generated) = Ok messageId /\
    submission_of p queueId opts messageId req /\
    value (queue name message opts w) =
      match fst (client.createTask req (cloud (after (ensureQueue (Queues p) w)))) with
      | Ok _ => Ok messageId
      | Throw e => Throw e
      end.
Proof.
  intros Hparse Hin.
  destruct (queue_run name message opts w p queueId Hparse)
    as [[Hcalls _] | (req' & generated & messageId & Hcalls & Hrest)];
    rewrite Hcalls in Hin.
  - destruct (ensureQueue_no_CreateTask config _ _ _ Hin).
  - apply in_app_or in Hin. destruct Hin as [Hin|[Hin|[]]].
    + destruct (ensureQueue_no_CreateTask config _ _ _ Hin).
    + injection Hin as <-. exists generated, messageId. split; assumption.
Qed.

Lemma queue_invalid_run
  (name : string) (message : Message) (opts : option QueueOptions) (w : world) (e : Error) :
  parseQueueName name = Throw e ->
  queue name message opts w = {| value := Throw e; after := w; calls := [] |}.
Proof.
  intros Hparse. unfold queue, bind, lift. simpl. rewrite Hparse. reflexivity.
Qed.

(** The state after [queue]: the embedded world is untouched, and the
    factory has moved by one id exactly when provisioning and
    serialization went through. *)
Lemma queue_after
  (name : string) (message : Message) (opts : option QueueOptions) (w : world)
  (p : QueuePrefix) (queueId : string) :
  parseQueueName name = Ok (p, queueId) ->
  engine (after (queue name message opts w)) = engine w /\
  factory (after (queue name message opts w)) =
    match value (ensureQueue (Queues p) w), transport.serialize message with
    | Ok _, Ok _ => snd (ulid.next (factory w))
    | _, _ => factory w
    end.
Proof.
  intros Hparse.
  destruct (ensureQueue_frame (Message := Message) config (Queues p) w)
    as [Hengine Hfactory].
  rewrite (queue_eq config env name message opts w p queueId Hparse). cbv zeta.
  rewrite Hfactory.
  destruct (value (ensureQueue (Queues p) w)) as [[]|e]; [|auto].
  destruct (transport.serialize message) as [serialized|e]; [|auto].
  destruct (fst (ulid.next (factory w))) as [generated|e]; [|auto].
  destruct (MessageId.parse ("msg_" ++ generated)) as [messageId|e]; [|auto].
  destruct (idempotencyKey_of opts) as [key|];
    [destruct (truthy_string key);
       [destruct (client.taskPath project location (Queues p) key) as [taskName|e]|]|];
    cbn [value after calls engine factory]; auto.
Qed.

(** X7. Every task that [queue] submits is a POST to [TASK_HANDLER_URL]
    (to http://localhost:3000/api/tasks when that is unset or empty) with
    a JSON content type, on the Cloud Tasks queue of the name's prefix;
    its body carries the serialized message, the options' key, and the
    prefix and the id that together spell the queue name. *)
Theorem queue_submission
  (name : string) (message : Message) (opts : option QueueOptions) (w : world)
  (p : QueuePrefix) (queueId : string) (req : CreateTaskRequest Body) :
  parseQueueName name = Ok (p, queueId) ->
  In (CreateTask req) (calls (queue name message opts w)) ->
  ct_parent req = client.queuePath project location (Queues p) /\
  httpMethod (httpRequest (ct_task req)) = "POST" /\
  url (httpRequest (ct_task req)) =
    match TASK_HANDLER_URL env with
    | None | Some "" => "http://localhost:3000/api/tasks"
    | Some handler => handler
    end /\
  headers (httpRequest (ct_task req)) = [("Content-Type", "application/json")] /\
  transport.serialize message = Ok (tb_data (body (httpRequest (ct_task req)))) /\
  tb_idempotencyKey (body (httpRequest (ct_task req))) = idempotencyKey_of opts /\
  tb_prefix (body (httpRequest (ct_task req))) ++ tb_id (body (httpRequest (ct_task req)))
    = name.
Proof.
  intros Hparse Hin.
  destruct (queue_CreateTask _ _ _ _ _ _ _ Hparse Hin)
    as (generated & messageId & _ & _ & Hbody & _ & _ & Hshape & _).
  destruct Hshape as (Hparent & Hmethod & Hurl & Hheaders & Hid & Hprefix & Hkey & _).
  repeat split; try assumption.
  - rewrite Hurl. unfold or_string.
    destruct (TASK_HANDLER_URL env) as [[|a handler]|]; reflexivity.
  - rewrite Hprefix, Hid. apply parseQueueName_spells, Hparse.
Qed.

(** X8. [queue] submits at most one task, as its last call, and only
    after [ensureQueue] has completed normally for the queue of the
    prefix. *)
Theorem queue_one_task_after_ensure
  (name : string) (message : Message) (opts : option QueueOptions) (w : world)
  (p : QueuePrefix) (queueId : string) (req : CreateTaskRequest Body) :
  parseQueueName name = Ok (p, queueId) ->
  In (CreateTask req) (calls (queue name message opts w)) ->
  calls (queue name message opts w) =
    (calls (ensureQueue (Queues p) w) ++ [CreateTask req])%list /\
  value (ensureQueue (Queues p) w) = Ok tt /\
  forall req', In (CreateTask req') (calls (queue name message opts w)) -> req' = req.
Proof.
  intros Hparse Hin.
  destruct (queue_CreateTask _ _ _ _ _ _ _ Hparse Hin)
    as (generated & messageId & Hcalls & Hens & _).
  split; [exact Hcalls|]. split; [exact Hens|].
  intros req' Hin'. rewrite Hcalls in Hin'.
  apply in_app_or in Hin'. destruct Hin' as [Hin'|[Hin'|[]]].
  - destruct (ensureQueue_no_CreateTask config _ _ _ Hin').
  - injection Hin' as <-. reflexivity.
Qed.

(** X9. A message id returned by [queue] stands for a task that Cloud
    Tasks accepted: the name parsed, the run ended with a [createTask]
    call that completed normally, and the id is the one in the task's
    body, [msg_] followed by the next id of the factory, as [MessageId]
    parsed it. *)
Theorem queue_returns_submitted
  (name : string) (message : Message) (opts : option QueueOptions) (w : world)
  (messageId : string) :
  value (queue name message opts w) = Ok messageId ->
  exists p queueId req generated,
    name = prefix_string p ++ queueId /\
    calls (queue name message opts w) =
      (calls (ensureQueue (Queues p) w) ++ [CreateTask req])%list /\
    fst (client.createTask req (cloud (after (ensureQueue (Queues p) w)))) = Ok tt /\
    tb_messageId (body (httpRequest (ct_task req))) = messageId /\
    fst (ulid.next (factory w)) = Ok generated /\
    MessageId.parse ("msg_" ++ generated) = Ok messageId.
Proof.
  intros Hvalue.
  destruct (parseQueueName name) as [[p queueId]|e] eqn:Hparse.
  - destruct (queue_run name message opts w p queueId Hparse)
      as [[_ [e He]] | (req & generated & messageId' & Hcalls & _ & _ & Hid & Hparsed
                         & Hshape & Hv)].
    + congruence.
    + rewrite Hv in Hvalue.
      destruct (fst (client.createTask req _)) as [[]|e] eqn:Hcreate; [|discriminate].
      injection Hvalue as ->.
      exists p, queueId, req, generated.
      split; [symmetry; apply parseQueueName_spells, Hparse|].
      repeat split; try assumption. apply Hshape.
  - rewrite (queue_invalid_run _ _ _ _ _ Hparse) in Hvalue. discriminate.
Qed.

(** X10. When Cloud Tasks refuses the task, for instance because a task
    of that name exists already, [queue] throws the error of
    [createTask] and returns no message id. *)
Theorem queue_createTask_throws
  (name : string) (message : Message) (opts : option QueueOptions) (w : world)
  (p : QueuePrefix) (queueId : string) (req : CreateTaskRequest Body) (e : Error) :
  parseQueueName name = Ok (p, queueId) ->
  In (CreateTask req) (calls (queue name message opts w)) ->
  fst (client.createTask req (cloud (after (ensureQueue (Queues p) w)))) = Throw e ->
  value (queue name message opts w) = Throw e.
Proof.
  intros Hparse Hin Hcreate.
  destruct (queue_CreateTask _ _ _ _ _ _ _ Hparse Hin)
    as (generated & messageId & _ & _ & _ & _ & _ & _ & Hv).
  rewrite Hv, Hcreate. reflexivity.
Qed.

(** X11. [queue] takes an id from the factory exactly when the name
    parses, [ensureQueue] completes normally and the message serializes;
    the id is then spent even if the task is refused.  A call that fails
    earlier leaves the factory as it was. *)
Theorem queue_factory
  (name : string) (message : Message) (opts : option QueueOptions) (w : world) :
  factory (after (queue name message opts w)) =
    match parseQueueName name with
    | Ok (p, _) =>
        match value (ensureQueue (Queues p) w), transport.serialize message with
        | Ok _, Ok _ => snd (ulid.next (factory w))
        | _, _ => factory w
        end
    | Throw _ => factory w
    end.
Proof.
  destruct (parseQueueName name) as [[p queueId]|e] eqn:Hparse.
  - apply (queue_after name message opts w p queueId Hparse).
  - rewrite (queue_invalid_run _ _ _ _ _ Hparse). reflexivity.
Qed.

(** X12. The empty string as [idempotencyKey] counts as no key for the
    name of the task, which is submitted without one, yet it is still
    written into the body of the task. *)
Theorem queue_empty_key
  (name : string) (message : Message) (opts : option QueueOptions) (w : world)
  (p : QueuePrefix) (queueId : string) (req : CreateTaskRequest Body) :
  parseQueueName name = Ok (p, queueId) ->
  idempotencyKey_of opts = Some "" ->
  In (CreateTask req) (calls (queue name message opts w)) ->
  t_name (ct_task req) = None /\
  tb_idempotencyKey (body (httpRequest (ct_task req))) = Some "".
Proof.
  intros Hparse Hkey Hin. split.
  - rewrite (queue_CreateTask_name config env _ _ _ _ _ _ _ Hparse Hin), Hkey.
    reflexivity.
  - destruct (queue_CreateTask _ _ _ _ _ _ _ Hparse Hin)
      as (generated & messageId & _ & _ & _ & _ & _ & Hshape & _).
    rewrite <- Hkey. apply Hshape.
Qed.

(** X13. [queue] never reaches the embedded world: it makes no call to
    it and leaves its state as it was, for every name. *)
Theorem queue_spares_embedded_world
  (name : string) (message : Message) (opts : option QueueOptions) (w : world) :
  engine (after (queue name message opts w)) = engine w /\
  forall queueName message' opts',
    ~ In (EngineQueue queueName message' opts') (calls (queue name message opts w)).
Proof.
  destruct (parseQueueName name) as [[p queueId]|e] eqn:Hparse.
  - split; [apply (queue_after name message opts w p queueId Hparse)|].
    intros queueName message' opts' Hin.
    assert (Hens : In (EngineQueue queueName message' opts')
                      (calls (ensureQueue (Queues p) w)) -> False).
    { intros H. destruct (ensureQueue_only_queue_calls _ _ _ H) as [[r Hr]|[r Hr]];
        discriminate. }
    destruct (queue_run name message opts w p queueId Hparse)
      as [[Hcalls _] | (req & generated & messageId & Hcalls & _)];
      rewrite Hcalls in Hin.
    + exact (Hens Hin).
    + apply in_app_or in Hin. destruct Hin as [Hin|[Hin|[]]];
        [exact (Hens Hin)|discriminate].
  - rewrite (queue_invalid_run _ _ _ _ _ Hparse). simpl. split; [reflexivity|].
    intros ? ? ? [].
Qed.

(** ** processTask *)

(** X14. [processTask] never reaches Cloud Tasks and takes no id: the
    state of the service and the factory are as they were, and the only
    call it can make is one call of the embedded world's [queue]. *)
Theorem processTask_spares_cloud (payload : TaskPayload) (w : world) :
  cloud (after (processTask payload w)) = cloud w /\
  factory (after (processTask payload w)) = factory w /\
  (calls (processTask payload w) = [] \/
   exists queueName message opts,
     calls (processTask payload w) = [EngineQueue queueName message opts]).
Proof.
  destruct (transport.deserialize (p_data payload)) as [raw|e] eqn:Hraw.
  - destruct (QueuePayloadSchema.parse raw) as [message|e] eqn:Hmessage.
    + rewrite (processTask_forwards _ _ _ _ Hraw Hmessage). simpl.
      repeat split. right. eauto.
    + rewrite (processTask_rejects _ _ e); [simpl; auto|].
      right. exists raw. split; assumption.
  - rewrite (processTask_rejects _ _ e); [simpl; auto|]. left. assumption.
Qed.

(** ** From queue to processTask *)

(** X15. The bridge keeps the queue name.  Take a task that [queue]
    submitted for a name, and a delivery that carries the [id], the
    [prefix] and the [idempotencyKey] of that task's body: if its data
    deserializes and validates, [processTask] queues the message in the
    embedded world under the very name given to [queue], with the key
    given to [queue]. *)
Theorem queue_then_processTask
  (name : string) (message : Message) (opts : option QueueOptions) (w : world)
  (p : QueuePrefix) (queueId : string) (req : CreateTaskRequest Body)
  (payload : TaskPayload) (w' : world) (raw : Raw) (delivered : Message) :
  parseQueueName name = Ok (p, queueId) ->
  In (CreateTask req) (calls (queue name message opts w)) ->
  p_id payload = Some (tb_id (body (httpRequest (ct_task req)))) ->
  p_prefix payload = Some (tb_prefix (body (httpRequest (ct_task req)))) ->
  p_idempotencyKey payload = tb_idempotencyKey (body (httpRequest (ct_task req))) ->
  transport.deserialize (p_data payload) = Ok raw ->
  QueuePayloadSchema.parse raw = Ok delivered ->
  calls (processTask payload w') =
    [EngineQueue name delivered {| opt_idempotencyKey := idempotencyKey_of opts |}].
Proof.
  intros Hparse Hin Hid Hprefix Hkey Hraw Hdelivered.
  destruct (queue_CreateTask _ _ _ _ _ _ _ Hparse Hin)
    as (generated & messageId & _ & _ & _ & _ & _ & Hshape & _).
  destruct Hshape as (_ & _ & _ & _ & Hid' & Hprefix' & Hkey' & _).
  rewrite (processTask_forwards _ _ _ _ Hraw Hdelivered). simpl.
  rewrite Hid, Hprefix, Hkey, Hid', Hprefix', Hkey'. simpl.
  rewrite (parseQueueName_spells _ _ _ Hparse). reflexivity.
Qed.

(** ** start *)

Lemma start_run (w : world) :
  start w =
    match value (ensureQueue (Queues wkf_workflow) w) with
    | Ok _ =>
        {| value := value (ensureQueue (Queues wkf_step)
                             (after (ensureQueue (Queues wkf_workflow) w)));
           after := after (ensureQueue (Queues wkf_step)
                             (after (ensureQueue (Queues wkf_workflow) w)));
           calls := calls (ensureQueue (Queues wkf_workflow) w) ++
                    calls (ensureQueue (Queues wkf_step)
                             (after (ensureQueue (Queues wkf_workflow) w))) |}
    | Throw e =>
        {| value := Throw e;
           after := after (ensureQueue (Queues wkf_workflow) w);
           calls := calls (ensureQueue (Queues wkf_workflow) w) |}
    end.
Proof. reflexivity. Qed.

(** X5. On a service that has neither queue, [start] makes four calls:
    it looks the queue of workflows up and creates it, then looks the
    queue of steps up and creates it, each under the location of the
    project and with the configured rate (10 when none is set, or when 0
    or NaN is); it completes normally once both are created. *)
Theorem start_creates_both
  (w : world) (missing1 missing2 : Error) (s1 s2 s3 s4 : S) :
  let rate :=
    match queueConcurrency config with
    | Some (Num z) => if Z.eqb z 0 then Num 10 else Num z
    | Some NaN | None => Num 10
    end in
  let creation queueName :=
    {| cq_parent := client.locationPath project location;
       cq_queue :=
         {| q_name := client.queuePath project location queueName;
            q_rateLimits := {| maxDispatchesPerSecond := rate |} |} |} in
  client.getQueue (lookup (Queues wkf_workflow)) (cloud w) = (Throw missing1, s1) ->
  code missing1 = Some 5%Z ->
  client.createQueue (creation (Queues wkf_workflow)) s1 = (Ok tt, s2) ->
  client.getQueue (lookup (Queues wkf_step)) s2 = (Throw missing2, s3) ->
  code missing2 = Some 5%Z ->
  client.createQueue (creation (Queues wkf_step)) s3 = (Ok tt, s4) ->
  value (start w) = Ok tt /\
  calls (start w) =
    [GetQueue (lookup (Queues wkf_workflow)); CreateQueue (creation (Queues wkf_workflow));
     GetQueue (lookup (Queues wkf_step)); CreateQueue (creation (Queues wkf_step))] /\
  cloud (after (start w)) = s4.
Proof.
  intros rate creation Hget1 Hmissing1 Hcreate1 Hget2 Hmissing2 Hcreate2.
  subst rate creation. cbv beta in Hcreate1, Hcreate2.
  pose proof (ensureQueue_not_found (Message := Message) config _ _ _ _
                Hget1 Hmissing1) as Hflows.
  cbv zeta in Hflows. rewrite or_number_cases, Hcreate1 in Hflows.
  cbn [fst snd] in Hflows.
  rewrite start_run, Hflows. cbn [value after calls].
  pose proof (ensureQueue_not_found (Message := Message) config (Queues wkf_step)
                {| cloud := s2; engine := engine w; factory := factory w |}
                missing2 s3 Hget2 Hmissing2) as Hsteps.
  cbv zeta in Hsteps. rewrite or_number_cases, Hcreate2 in Hsteps.
  cbn [fst snd] in Hsteps.
  rewrite Hsteps. cbn [value after calls cloud]. repeat split.
Qed.

(** *** A service that keeps its queues *)

Section Durable.

(** Left to this process, the service loses no queue: a queue that a
    lookup finds is still found after any lookup and after any creation,
    and a queue that was created is found. *)
Hypothesis lookup_keeps : forall (req req' : GetQueueRequest) (s : S),
  fst (client.getQueue req s) = Ok tt ->
  fst (client.getQueue req (snd (client.getQueue req' s))) = Ok tt.

Hypothesis creation_keeps : forall (req : GetQueueRequest) (creation : CreateQueueRequest) (s : S),
  fst (client.getQueue req s) = Ok tt ->
  fst (client.getQueue req (snd (client.createQueue creation s))) = Ok tt.

Hypothesis created_found : forall (creation : CreateQueueRequest) (s : S),
  fst (client.createQueue creation s) = Ok tt ->
  fst (client.getQueue {| gq_name := q_name (cq_queue creation) |}
         (snd (client.createQueue creation s))) = Ok tt.

Lemma ensureQueue_keeps (req : GetQueueRequest) (queueName : string) (w : world) :
  fst (client.getQueue req (cloud w)) = Ok tt ->
  fst (client.getQueue req (cloud (after (ensureQueue queueName w)))) = Ok tt.
Proof.
  intros Hreq.
  pose proof (lookup_keeps req (lookup queueName) (cloud w) Hreq) as Hkept.
  destruct (client.getQueue (lookup queueName) (cloud w)) as [[[]|error] s1] eqn:H.
  - rewrite (ensureQueue_found config _ _ _ H). exact Hkept.
  - destruct (code_5_dec error) as [H5|H5].
    + rewrite (ensureQueue_not_found config _ _ _ _ H H5). simpl.
      apply creation_keeps. exact Hkept.
    + rewrite (ensureQueue_other_error config _ _ _ _ H H5). exact Hkept.
Qed.

Lemma ensureQueue_Ok_finds (queueName : string) (w : world) :
  value (ensureQueue queueName w) = Ok tt ->
  fst (client.getQueue (lookup queueName) (cloud (after (ensureQueue queueName w)))) = Ok tt.
Proof.
  pose proof (lookup_keeps (lookup queueName) (lookup queueName) (cloud w)) as Hkept.
  destruct (client.getQueue (lookup queueName) (cloud w)) as [[[]|error] s1] eqn:H.
  - rewrite (ensureQueue_found config _ _ _ H). simpl. intros _. apply Hkept. reflexivity.
  - destruct (code_5_dec error) as [H5|H5].
    + rewrite (ensureQueue_not_found config _ _ _ _ H H5). simpl.
      intros Hcreated. apply (created_found _ _ Hcreated).
    + rewrite (ensureQueue_other_error config _ _ _ _ H H5). simpl. discriminate.
Qed.

Lemma ensureQueue_of_found (queueName : string) (w : world) :
  fst (client.getQueue (lookup queueName) (cloud w)) = Ok tt ->
  value (ensureQueue queueName w) = Ok tt /\
  calls (ensureQueue queueName w) = [GetQueue (lookup queueName)].
Proof.
  destruct (client.getQueue (lookup queueName) (cloud w)) as [c s1] eqn:H.
  simpl. intros ->. rewrite (ensureQueue_found config _ _ _ H). split; reflexivity.
Qed.

(** After a [start] that completed normally, both queues are found. *)
Lemma start_Ok_finds (w : world) (p : QueuePrefix) :
  value (start w) = Ok tt ->
  fst (client.getQueue (lookup (Queues p)) (cloud (after (start w)))) = Ok tt.
Proof.
  rewrite start_run.
  destruct (value (ensureQueue (Queues wkf_workflow) w)) as [[]|e] eqn:Hflows;
    simpl; [|discriminate].
  intros Hsteps. destruct p.
  - apply ensureQueue_keeps, ensureQueue_Ok_finds, Hflows.
  - apply ensureQueue_Ok_finds, Hsteps.
Qed.

(** X6. [start] is idempotent on a service that keeps its queues: after a
    [start] that completed normally, another [start] looks the two queues
    up, creates nothing and completes normally. *)
Theorem start_twice (w : world) :
  value (start w) = Ok tt ->
  value (start (after (start w))) = Ok tt /\
  calls (start (after (start w))) =
    [GetQueue (lookup (Queues wkf_workflow)); GetQueue (lookup (Queues wkf_step))] /\
  createQueue_calls (calls (start (after (start w)))) = 0.
Proof.
  intros Hstart.
  pose proof (start_Ok_finds w wkf_workflow Hstart) as Hflows.
  pose proof (start_Ok_finds w wkf_step Hstart) as Hsteps.
  set (w1 := after (start w)) in *.
  destruct (ensureQueue_of_found _ _ Hflows) as [Hv1 Hc1].
  pose proof (ensureQueue_keeps _ (Queues wkf_workflow) w1 Hsteps) as Hsteps'.
  destruct (ensureQueue_of_found _ _ Hsteps') as [Hv2 Hc2].
  rewrite start_run, Hv1, Hv2, Hc1, Hc2. repeat split.
Qed.

(** X16. Once [start] has completed normally, [queue] creates no queue:
    for every name that parses, its provisioning is the one lookup of
    the queue of the prefix, which succeeds. *)
Theorem queue_after_start
  (w : world) (name : string) (message : Message) (opts : option QueueOptions)
  (p : QueuePrefix) (queueId : string) :
  value (start w) = Ok tt ->
  parseQueueName name = Ok (p, queueId) ->
  value (ensureQueue (Queues p) (after (start w))) = Ok tt /\
  createQueue_calls (calls (queue name message opts (after (start w)))) = 0 /\
  exists rest,
    calls (queue name message opts (after (start w))) =
      GetQueue (lookup (Queues p)) :: rest /\
    (rest = [] \/ exists req, rest = [CreateTask req]).
Proof.
  intros Hstart Hparse.
  destruct (ensureQueue_of_found _ _ (start_Ok_finds w p Hstart)) as [Hv Hc].
  split; [exact Hv|].
  destruct (queue_run name message opts (after (start w)) p queueId Hparse)
    as [[Hcalls _] | (req & generated & messageId & Hcalls & _)];
    rewrite Hcalls, Hc; simpl.
  - split; [reflexivity|]. exists []. auto.
  - split; [reflexivity|]. exists [CreateTask req]. split; [reflexivity|]. right. eauto.
Qed.

End Durable.

End Behaviour.

(** ** The in-memory service as an instance *)

Import InMemory.

Abbreviation demo := (World Cloud (list Enqueued) (list string)).

Lemma InMemory_found_again (req : GetQueueRequest) (s s1 : Cloud) :
  client.getQueue req s = (Ok tt, s1) ->
  fst (client.getQueue req s1) = Ok tt.
Proof.
  simpl. unfold getQueue.
  destruct (unavailable s) eqn:Hu; [discriminate|].
  destruct (has (queues s) (gq_name req)) eqn:Hq; [|discriminate].
  intros H. injection H as <-. rewrite Hu, Hq. reflexivity.
Qed.

Lemma InMemory_created_is_found (req : CreateQueueRequest) (s s1 : Cloud) :
  client.createQueue req s = (Ok tt, s1) ->
  fst (client.getQueue {| gq_name := q_name (cq_queue req) |} s1) = Ok tt.
Proof.
  simpl. unfold createQueue, getQueue.
  destruct (unavailable s); [discriminate|].
  destruct (has (queues s) (q_name (cq_queue req))); [discriminate|].
  intros H. injection H as <-. simpl.
  rewrite String.eqb_refl. reflexivity.
Qed.

Lemma ensureQueue_lookup_fails_witness :
  value (ensureQueue (Message := Json) config "workflow-flows" empty) = Ok tt /\
  value (ensureQueue (Message := Json) config "workflow-flows" down) = Throw UNAVAILABLE.
Proof.
  split.
  - destruct (ensureQueue_lookup_fails (Message := Json) (cloudTasks := cloudTasks)
                config "workflow-flows" empty NOT_FOUND (cloud empty) eq_refl) as [H _].
    destruct (H eq_refl) as (_ & _ & _ & Hcreated). apply Hcreated. reflexivity.
  - destruct (ensureQueue_lookup_fails (Message := Json) (cloudTasks := cloudTasks)
                config "workflow-flows" down UNAVAILABLE (cloud down) eq_refl) as [_ H].
    destruct H as (Hthrown & _); [discriminate|exact Hthrown].
Defined.

Lemma ensureQueue_falsy_concurrency_witness :
  exists req,
    calls (ensureQueue (Message := Json) unthrottled "workflow-steps" empty) =
      [GetQueue {| gq_name := "projects/demo/locations/us-central1/queues/workflow-steps" |};
       CreateQueue req] /\
    maxDispatchesPerSecond (q_rateLimits (cq_queue req)) = Num 10 /\
    maxDispatchesPerSecond (q_rateLimits (cq_queue req)) <> Num 0.
Proof.
  exact (ensureQueue_falsy_concurrency (Message := Json) (cloudTasks := cloudTasks)
           unthrottled "workflow-steps" empty NOT_FOUND (cloud empty) (Num 0)
           eq_refl (or_introl eq_refl) eq_refl eq_refl).
Defined.

Lemma ensureQueue_twice_witness :
  value (ensureQueue (Message := Json) config "workflow-steps" provisioned) = Ok tt /\
  calls (ensureQueue (Message := Json) config "workflow-steps" provisioned) =
    [GetQueue {| gq_name := "projects/demo/locations/us-central1/queues/workflow-steps" |}] /\
  createQueue_calls
    (calls (ensureQueue (Message := Json) config "workflow-steps" provisioned)) = 0 /\
  createQueue_calls
    (calls (ensureQueue (Message := Json) config "workflow-steps" empty) ++
     calls (ensureQueue (Message := Json) config "workflow-steps" provisioned)) <= 1.
Proof.
  exact (ensureQueue_twice (Message := Json) (cloudTasks := cloudTasks) config
           InMemory_found_again InMemory_created_is_found "workflow-steps" empty
           eq_refl).
Defined.

Lemma queue_invalid_name_witness :
  queue config env "orders_42" invocation None empty =
    {| value := Throw (newError "Invalid queue name: orders_42");
       after := empty;
       calls := [] |}.
Proof.
  apply (queue_invalid_name (cloudTasks := cloudTasks) config env
           "orders_42" invocation None empty).
  intros []; reflexivity.
Defined.

Lemma queue_task_name_deterministic_witness :
  (exists req1 req2,
     calls (queue config env "__wkf_step_abc123" invocation keyed empty) =
       (calls (ensureQueue (Message := Json) config "workflow-steps" empty) ++
        [CreateTask req1])%list /\
     calls (queue config env "__wkf_step_def456" other_invocation keyed dispatched) =
       (calls (ensureQueue (Message := Json) config "workflow-steps" dispatched) ++
        [CreateTask req2])%list /\
     t_name (ct_task req1) =
       Some "projects/demo/locations/us-central1/queues/workflow-steps/tasks/order-7" /\
     t_name (ct_task req2) =
       Some "projects/demo/locations/us-central1/queues/workflow-steps/tasks/order-7") /\
  (exists req1 req2,
     calls (queue config env "__wkf_workflow_run_1" invocation None empty) =
       (calls (ensureQueue (Message := Json) config "workflow-flows" empty) ++
        [CreateTask req1])%list /\
     calls (queue config env "__wkf_workflow_run_2" other_invocation None dispatched) =
       (calls (ensureQueue (Message := Json) config "workflow-flows" dispatched) ++
        [CreateTask req2])%list /\
     t_name (ct_task req1) = None /\
     t_name (ct_task req2) = None).
Proof.
  split.
  - exact (queue_task_name_deterministic (cloudTasks := cloudTasks) config env wkf_step
             "__wkf_step_abc123" "__wkf_step_def456" "abc123" "def456"
             invocation other_invocation keyed keyed empty dispatched
             (stringify invocation) (stringify other_invocation)
             "01ARZ3NDEKTSV4RRFFQ69G5FAV" "01ARZ3NDEKTSV4RRFFQ69G5FAW"
             "msg_01ARZ3NDEKTSV4RRFFQ69G5FAV" "msg_01ARZ3NDEKTSV4RRFFQ69G5FAW"
             eq_refl eq_refl eq_refl
             (conj eq_refl (conj eq_refl (conj eq_refl eq_refl)))
             (conj eq_refl (conj eq_refl (conj eq_refl eq_refl)))).
  - exact (queue_task_name_deterministic (cloudTasks := cloudTasks) config env wkf_workflow
             "__wkf_workflow_run_1" "__wkf_workflow_run_2" "run_1" "run_2"
             invocation other_invocation None None empty dispatched
             (stringify invocation) (stringify other_invocation)
             "01ARZ3NDEKTSV4RRFFQ69G5FAV" "01ARZ3NDEKTSV4RRFFQ69G5FAW"
             "msg_01ARZ3NDEKTSV4RRFFQ69G5FAV" "msg_01ARZ3NDEKTSV4RRFFQ69G5FAW"
             eq_refl eq_refl eq_refl
             (conj eq_refl (conj eq_refl (conj eq_refl eq_refl)))
             (conj eq_refl (conj eq_refl (conj eq_refl eq_refl)))).
Defined.

Lemma processTask_requeues_witness :
  calls (processTask delivery empty : Run demo (Call Json string) unit) =
    [EngineQueue "__wkf_step_abc123" invocation {| opt_idempotencyKey := None |}] /\
  value (processTask delivery empty : Run demo (Call Json string) unit) = Ok tt /\
  engine (after (processTask delivery empty : Run demo (Call Json string) unit)) =
    [("__wkf_step_abc123", invocation, {| opt_idempotencyKey := None |})].
Proof.
  exact (processTask_requeues (Body := string) (S := Cloud) (G := list string)
           delivery empty "__wkf_step_" "abc123" invocation invocation
           eq_refl eq_refl eq_refl eq_refl).
Defined.

(** C4 does not hold: a delivery without [prefix], and one whose [prefix]
    is no [QueuePrefix], are not turned away.  Their [data] is a Buffer
    holding the JSON text of the object with [runId] [wrun_1], which
    deserializes and validates, and [processTask] calls the embedded
    world's [queue], under ["undefinedabc123"] and under
    ["__wkf_hook_abc123"]. *)
Lemma processTask_accepts_malformed_envelope :
  (p_prefix delivery_without_prefix = None /\
   p_data delivery_without_prefix = Some (Buffer (stringify [("runId", "wrun_1")])) /\
   calls (processTask delivery_without_prefix empty : Run demo (Call Json string) unit)
     = [EngineQueue "undefinedabc123" [("runId", "wrun_1")]
          {| opt_idempotencyKey := None |}]) /\
  (p_prefix delivery_with_unknown_prefix = Some "__wkf_hook_" /\
   p_data delivery_with_unknown_prefix = Some (Buffer (stringify [("runId", "wrun_1")])) /\
   calls (processTask delivery_with_unknown_prefix empty : Run demo (Call Json string) unit)
     = [EngineQueue "__wkf_hook_abc123" [("runId", "wrun_1")]
          {| opt_idempotencyKey := None |}]).
Proof. repeat split. Qed.

(** ** The further properties on the two services *)

Lemma InMemory_lookup_keeps (req req' : GetQueueRequest) (s : Cloud) :
  fst (client.getQueue req s) = Ok tt ->
  fst (client.getQueue req (snd (client.getQueue req' s))) = Ok tt.
Proof.
  simpl. unfold getQueue.
  destruct (unavailable s) eqn:Hu; [discriminate|].
  destruct (has (queues s) (gq_name req')); simpl; rewrite Hu; auto.
Qed.

Lemma InMemory_creation_keeps (req : GetQueueRequest) (creation : CreateQueueRequest) (s : Cloud) :
  fst (client.getQueue req s) = Ok tt ->
  fst (client.getQueue req (snd (client.createQueue creation s))) = Ok tt.
Proof.
  simpl. unfold getQueue, createQueue.
  destruct (unavailable s) eqn:Hu; [discriminate|].
  destruct (has (queues s) (gq_name req)) eqn:Hq; [|discriminate]. intros _.
  destruct (has (queues s) (q_name (cq_queue creation))); simpl.
  - rewrite Hu, Hq. reflexivity.
  - rewrite Hq, orb_true_r. reflexivity.
Qed.

Lemma InMemory_created_found (creation : CreateQueueRequest) (s : Cloud) :
  fst (client.createQueue creation s) = Ok tt ->
  fst (client.getQueue {| gq_name := q_name (cq_queue creation) |}
         (snd (client.createQueue creation s))) = Ok tt.
Proof.
  simpl. unfold getQueue, createQueue.
  destruct (unavailable s); [discriminate|].
  destruct (has (queues s) (q_name (cq_queue creation))); [discriminate|]. intros _.
  simpl. rewrite String.eqb_refl. reflexivity.
Qed.

Lemma ensureQueue_existing_witness :
  value (ensureQueue (Message := Json) config "workflow-steps" provisioned) = Ok tt /\
  calls (ensureQueue (Message := Json) config "workflow-steps" provisioned) =
    [GetQueue {| gq_name := "projects/demo/locations/us-central1/queues/workflow-steps" |}] /\
  createQueue_calls
    (calls (ensureQueue (Message := Json) config "workflow-steps" provisioned)) = 0 /\
  cloud (after (ensureQueue (Message := Json) config "workflow-steps" provisioned)) =
    cloud provisioned.
Proof.
  exact (ensureQueue_existing (Message := Json) (cloudTasks := cloudTasks) config
           "workflow-steps" provisioned (cloud provisioned) eq_refl).
Defined.

Lemma ensureQueue_create_throws_witness :
  value (ensureQueue (Message := Json) (cloudTasks := Contended.cloudTasks)
           config "workflow-flows" Contended.fresh) = Throw ALREADY_EXISTS /\
  cloud (after (ensureQueue (Message := Json) (cloudTasks := Contended.cloudTasks)
                  config "workflow-flows" Contended.fresh)) = true.
Proof.
  eapply (ensureQueue_create_throws (Message := Json)
            (cloudTasks := Contended.cloudTasks) config "workflow-flows"
            Contended.fresh NOT_FOUND ALREADY_EXISTS true true).
  - reflexivity.
  - reflexivity.
  - right. left. reflexivity.
  - reflexivity.
Defined.

Lemma start_twice_witness :
  value (start (Message := Json) config
           (after (start (Message := Json) config empty))) = Ok tt /\
  calls (start (Message := Json) config
           (after (start (Message := Json) config empty))) =
    [GetQueue {| gq_name := "projects/demo/locations/us-central1/queues/workflow-flows" |};
     GetQueue {| gq_name := "projects/demo/locations/us-central1/queues/workflow-steps" |}] /\
  createQueue_calls
    (calls (start (Message := Json) config
              (after (start (Message := Json) config empty)))) = 0.
Proof.
  exact (start_twice (Message := Json) (cloudTasks := cloudTasks) config
           InMemory_lookup_keeps InMemory_creation_keeps InMemory_created_found
           empty eq_refl).
Defined.

Lemma queue_submission_witness :
  exists req,
    In (CreateTask req)
       (calls (queue config env "__wkf_step_abc123" invocation keyed empty)) /\
    ct_parent req = "projects/demo/locations/us-central1/queues/workflow-steps" /\
    url (httpRequest (ct_task req)) = "http://localhost:3000/api/tasks" /\
    tb_data (body (httpRequest (ct_task req))) = stringify invocation /\
    tb_idempotencyKey (body (httpRequest (ct_task req))) = Some "order-7" /\
    tb_prefix (body (httpRequest (ct_task req))) ++
    tb_id (body (httpRequest (ct_task req))) = "__wkf_step_abc123".
Proof.
  assert (H : exists req,
             In (CreateTask req)
                (calls (queue config env "__wkf_step_abc123" invocation keyed empty))).
  { eexists. cbv. right. right. left. reflexivity. }
  destruct H as [req H]. exists req. split; [exact H|].
  destruct (queue_submission (cloudTasks := cloudTasks) config env
              "__wkf_step_abc123" invocation keyed empty wkf_step "abc123" req
              eq_refl H)
    as (Hparent & _ & Hurl & _ & Hdata & Hkey & Hname).
  repeat split; try assumption.
  injection Hdata as Hdata. symmetry. exact Hdata.
Defined.

Lemma queue_one_task_after_ensure_witness :
  exists req,
    calls (queue config env "__wkf_step_abc123" invocation None empty) =
      [GetQueue {| gq_name := "projects/demo/locations/us-central1/queues/workflow-steps" |};
       CreateQueue
         {| cq_parent := "projects/demo/locations/us-central1";
            cq_queue :=
              {| q_name := "projects/demo/locations/us-central1/queues/workflow-steps";
                 q_rateLimits := {| maxDispatchesPerSecond := Num 10 |} |} |};
       CreateTask req] /\
    forall req',
      In (CreateTask req')
         (calls (queue config env "__wkf_step_abc123" invocation None empty)) ->
      req' = req.
Proof.
  assert (H : exists req,
             In (CreateTask req)
                (calls (queue config env "__wkf_step_abc123" invocation None empty))).
  { eexists. cbv. right. right. left. reflexivity. }
  destruct H as [req H]. exists req.
  destruct (queue_one_task_after_ensure (cloudTasks := cloudTasks) config env
              "__wkf_step_abc123" invocation None empty wkf_step "abc123" req
              eq_refl H)
    as (Hcalls & _ & Honly).
  split; [exact Hcalls|exact Honly].
Defined.

Lemma queue_returns_submitted_witness :
  exists p queueId req generated,
    "__wkf_workflow_run_42" = prefix_string p ++ queueId /\
    calls (queue config env "__wkf_workflow_run_42" other_invocation None empty) =
      (calls (ensureQueue (Message := Json) config (Queues config p) empty) ++
       [CreateTask req])%list /\
    fst (client.createTask req
           (cloud (after (ensureQueue (Message := Json) config (Queues config p) empty))))
      = Ok tt /\
    tb_messageId (body (httpRequest (ct_task req))) = "msg_01ARZ3NDEKTSV4RRFFQ69G5FAV" /\
    fst (ulid.next (factory empty)) = Ok generated /\
    MessageId.parse ("msg_" ++ generated) = Ok "msg_01ARZ3NDEKTSV4RRFFQ69G5FAV".
Proof.
  exact (queue_returns_submitted (cloudTasks := cloudTasks) config env
           "__wkf_workflow_run_42" other_invocation None empty
           "msg_01ARZ3NDEKTSV4RRFFQ69G5FAV" eq_refl).
Defined.

Lemma queue_createTask_throws_witness :
  value (queue config env "__wkf_step_def456" other_invocation keyed dispatched) =
    Throw ALREADY_EXISTS.
Proof.
  eapply (queue_createTask_throws (cloudTasks := cloudTasks) config env
            "__wkf_step_def456" other_invocation keyed dispatched wkf_step "def456").
  - reflexivity.
  - cbv. right. left. reflexivity.
  - reflexivity.
Defined.

Lemma queue_empty_key_witness :
  exists req,
    In (CreateTask req)
       (calls (queue config env "__wkf_step_abc123" invocation
                 (Some {| opt_idempotencyKey := Some "" |}) empty)) /\
    t_name (ct_task req) = None /\
    tb_idempotencyKey (body (httpRequest (ct_task req))) = Some "".
Proof.
  assert (H : exists req,
             In (CreateTask req)
                (calls (queue config env "__wkf_step_abc123" invocation
                          (Some {| opt_idempotencyKey := Some "" |}) empty))).
  { eexists. cbv. right. right. left. reflexivity. }
  destruct H as [req H]. exists req. split; [exact H|].
  exact (queue_empty_key (cloudTasks := cloudTasks) config env
           "__wkf_step_abc123" invocation
           (Some {| opt_idempotencyKey := Some "" |}) empty wkf_step "abc123" req
           eq_refl eq_refl H).
Defined.

Lemma queue_then_processTask_witness :
  calls (processTask delivery dispatched : Run demo (Call Json string) unit) =
    [EngineQueue "__wkf_step_abc123" invocation {| opt_idempotencyKey := None |}].
Proof.
  assert (H : exists req,
             In (CreateTask req)
                (calls (queue config env "__wkf_step_abc123" invocation None empty)) /\
             tb_id (body (httpRequest (ct_task req))) = "abc123" /\
             tb_prefix (body (httpRequest (ct_task req))) = "__wkf_step_" /\
             tb_idempotencyKey (body (httpRequest (ct_task req))) = None).
  { eexists. split; [cbv; right; right; left; reflexivity|]. repeat split. }
  destruct H as (req & Hin & Hid & Hprefix & Hkey).
  refine (queue_then_processTask (cloudTasks := cloudTasks) config env
            "__wkf_step_abc123" invocation None empty wkf_step "abc123" req
            delivery dispatched invocation invocation
            eq_refl Hin _ _ _ eq_refl eq_refl).
  - rewrite Hid. reflexivity.
  - rewrite Hprefix. reflexivity.
  - rewrite Hkey. reflexivity.
Defined.

Lemma queue_after_start_witness :
  value (ensureQueue (Message := Json) config (Queues config wkf_step)
           (after (start (Message := Json) config empty))) = Ok tt /\
  createQueue_calls
    (calls (queue config env "__wkf_step_abc123" invocation None
              (after (start (Message := Json) config empty)))) = 0 /\
  exists rest,
    calls (queue config env "__wkf_step_abc123" invocation None
             (after (start (Message := Json) config empty))) =
      GetQueue {| gq_name := "projects/demo/locations/us-central1/queues/workflow-steps" |}
      :: rest /\
    (rest = [] \/ exists req, rest = [CreateTask req]).
Proof.
  exact (queue_after_start (cloudTasks := cloudTasks) config env
           InMemory_lookup_keeps InMemory_creation_keeps InMemory_created_found
           empty "__wkf_step_abc123" invocation None wkf_step "abc123"
           eq_refl eq_refl).
Defined.

Lemma start_creates_both_witness :
  value (start (Message := Json) config empty) = Ok tt /\
  calls (start (Message := Json) config empty) =
    [GetQueue {| gq_name := "projects/demo/locations/us-central1/queues/workflow-flows" |};
     CreateQueue
       {| cq_parent := "projects/demo/locations/us-central1";
          cq_queue :=
            {| q_name := "projects/demo/locations/us-central1/queues/workflow-flows";
               q_rateLimits := {| maxDispatchesPerSecond := Num 10 |} |} |};
     GetQueue {| gq_name := "projects/demo/locations/us-central1/queues/workflow-steps" |};
     CreateQueue
       {| cq_parent := "projects/demo/locations/us-central1";
          cq_queue :=
            {| q_name := "projects/demo/locations/us-central1/queues/workflow-steps";
               q_rateLimits := {| maxDispatchesPerSecond := Num 10 |} |} |}] /\
  cloud (after (start (Message := Json) config empty)) =
    {| queues :=
         ["projects/demo/locations/us-central1/queues/workflow-steps";
          "projects/demo/locations/us-central1/queues/workflow-flows"];
       tasks := [];
       unavailable := false |}.
Proof.
  exact (start_creates_both (Message := Json) (cloudTasks := cloudTasks) config empty
           NOT_FOUND NOT_FOUND (cloud empty) _ _ _
           eq_refl eq_refl eq_refl eq_refl eq_refl eq_refl).
Defined.
